(** * ttds: rasterizer, DRM page flip and pane store -- a shallow embedding

    The development follows the C sources:
    - [canvas.h] / [rendering.c]: the canvas, [draw_point], [rendering_fill],
      [rendering_draw_rect], [rendering_draw_circle],
      [rendering_dump_bgra_to_rgba];
    - [backends/drm.c] and the backend table: [drm_rendering_show], the
      scans of [drm_rendering_init];
    - [threads/ui.c]: the pane store and [rotate_panes];
    - [commands.c]: [parse], [parse_color], [run] and the hooks of CREATE
      and REMOVE.

    Fixed-width C integers are integers of [Z] with the wrap-around written
    out; a pixel buffer is a [list Z] of bytes updated by index. *)

From stdpp Require Import base numbers list strings.

Local Open Scope Z_scope.

(** ** Machine integers *)

Module Machine.

Definition u8 (v : Z) : Z := v mod 2 ^ 8.
Definition u16 (v : Z) : Z := v mod 2 ^ 16.
Definition u32 (v : Z) : Z := v mod 2 ^ 32.
  (** [size_t] and [uint64_t] are both 64 bits wide on the targets of the
      DRM backend. *)
Definition u64 (v : Z) : Z := v mod 2 ^ 64.
  (** [int32_t] in two's complement. *)
Definition i32 (v : Z) : Z := (v + 2 ^ 31) mod 2 ^ 32 - 2 ^ 31.

Definition is_u8 (v : Z) : Prop := 0 ≤ v < 2 ^ 8.
Definition is_u16 (v : Z) : Prop := 0 ≤ v < 2 ^ 16.
Definition is_u32 (v : Z) : Prop := 0 ≤ v < 2 ^ 32.

Lemma u16_range v : 0 ≤ u16 v < 2 ^ 16.
Proof. unfold u16. apply Z.mod_pos_bound. lia. Qed.

Lemma u16_small v : 0 ≤ v < 2 ^ 16 → u16 v = v.
Proof. intros. unfold u16. by apply Z.mod_small. Qed.

Lemma u64_small v : 0 ≤ v < 2 ^ 64 → u64 v = v.
Proof. intros. unfold u64. by apply Z.mod_small. Qed.

Lemma i32_small v : - 2 ^ 31 ≤ v < 2 ^ 31 → i32 v = v.
Proof. intros. unfold i32. rewrite Z.mod_small; lia. Qed.

End Machine.

Import Machine.

(** Expose the numeric bounds of the C types to [lia] and [nia]. *)
Ltac widths :=
  unfold is_u8, is_u16, is_u32 in *;
  change (2 ^ 8) with 256 in *;
  change (2 ^ 16) with 65536 in *;
  change (2 ^ 31) with 2147483648 in *;
  change (2 ^ 32) with 4294967296 in *;
  change (2 ^ 64) with 18446744073709551616 in *.

(** ** canvas.h: colours, shapes and the canvas *)

(** [struct color]; alpha is always 0xff. *)
Record color := Color { color_r : Z; color_g : Z; color_b : Z }.

(** [struct rect] (the colour travels as a separate argument in the
    three-argument drawing functions of [rendering.c]). *)
Record rect := Rect { rect_x : Z; rect_y : Z; rect_w : Z; rect_h : Z }.

(** [struct circle]. *)
Record circle := Circle { circle_x : Z; circle_y : Z; circle_r : Z }.

(** [struct canvas]: [uint16_t width, height; uint32_t stride;
    uint8_t *buffer]. The buffer is the list of its bytes. *)
Record canvas := Canvas {
  width : Z;
  height : Z;
  stride : Z;
  buffer : list Z;
}.

(** [canvas_buffer_size]: the product is taken in [uint64_t]. *)
Definition canvas_buffer_size (c : canvas) : Z :=
  u64 (u64 (width c * height c) * stride c).

(** A canvas whose fields fit their C types and whose buffer has the size
    [canvas_buffer_size] announces. *)
Record canvas_wf (c : canvas) : Prop := CanvasWf {
  wf_width : is_u16 (width c);
  wf_height : is_u16 (height c);
  wf_stride : is_u32 (stride c);
  wf_buffer : Z.of_nat (length (buffer c)) = canvas_buffer_size c;
}.

(** [canvas_init_bgra]: both allocations may fail. [malloc n] is the
    allocator's answer to a request of [n] bytes. The first allocation, of
    the struct itself, is represented by [malloc_struct]. *)
Definition canvas_init_bgra (malloc_struct : bool) (malloc : Z → option (list Z))
    (w h : Z) : option canvas :=
  if malloc_struct then
    let ret := Canvas w h 4 [] in
    match malloc (canvas_buffer_size ret) with
    | Some buf => Some (Canvas w h 4 buf)
    | None => None
    end
  else None.

(** ** rendering.c: the rasterizer *)

(** The two index computations of [draw_point], in [size_t]. *)
Definition pixel_idx (c : canvas) (x y : Z) : Z :=
  u64 (u64 (y * width c) + x).

Definition byte_idx (c : canvas) (x y : Z) : Z :=
  u64 (pixel_idx c x y * stride c).

(** [mapped] of [draw_point]: little-endian BGRA. *)
Definition mapped (col : color) : list Z :=
  [color_b col; color_g col; color_r col; 0xFF].

(** [memcpy(&buffer[off], src, sizeof src)]. C leaves a copy that runs past
    the end of the buffer undefined; here the bytes that fall outside the
    list are dropped, and every result below that reads a canvas back first
    shows the copy to be in bounds, or assumes it ([write_in_bounds]). *)
Definition memcpy (dst : list Z) (off : Z) (src : list Z) : list Z :=
  list_inserts (Z.to_nat off) src dst.

(** [draw_point]: no bounds check of its own. *)
Definition draw_point (c : canvas) (x y : Z) (col : color) : canvas :=
  Canvas (width c) (height c) (stride c)
         (memcpy (buffer c) (byte_idx c x y) (mapped col)).

(** Every primitive lowers to a sequence of [draw_point] calls whose
    coordinates do not depend on the pixels; [draw_points] runs such a
    sequence in order. *)
Definition draw_points (c : canvas) (col : color) (pts : list (Z * Z)) : canvas :=
  foldl (λ c p, draw_point c p.1 p.2 col) c pts.

(** The four bytes [draw_point] writes for the pixel [p] lie inside the
    buffer: the [memcpy] is defined. *)
Definition write_in_bounds (c : canvas) (p : Z * Z) : Prop :=
  byte_idx c p.1 p.2 + 4 ≤ Z.of_nat (length (buffer c)).

(** The four bytes of pixel [(x, y)], read back from the buffer. *)
Definition read_pixel (c : canvas) (x y : Z) : list (option Z) :=
  let o := Z.to_nat (byte_idx c x y) in
  [buffer c !! o; buffer c !! S o; buffer c !! S (S o); buffer c !! S (S (S o))].

(** [rendering_fill]: [x] is the outer loop, [y] the inner one. Both counters
    are [uint16_t] and stay below a [uint16_t] bound, so the increment never
    wraps and each loop runs over [0 .. bound - 1]. *)
Definition fill_points (c : canvas) : list (Z * Z) :=
  flat_map (λ x, map (λ y, (x, y)) (seqZ 0 (height c))) (seqZ 0 (width c)).

Definition rendering_fill (c : canvas) (col : color) : canvas :=
  draw_points c col (fill_points c).

(** [rendering_draw_rect]: the edges are [uint16_t] sums; rows are bounded by
    [bottom_edge] only, columns by [right_edge] and the canvas width. *)
Definition rect_points (c : canvas) (rc : rect) : list (Z * Z) :=
  let right_edge := u16 (rect_x rc + rect_w rc) in
  let bottom_edge := u16 (rect_y rc + rect_h rc) in
  flat_map
    (λ y, map (λ x, (x, y))
              (seqZ (rect_x rc) (Z.min right_edge (width c) - rect_x rc)))
    (seqZ (rect_y rc) (bottom_edge - rect_y rc)).

Definition rendering_draw_rect (c : canvas) (rc : rect) (col : color) : canvas :=
  draw_points c col (rect_points c rc).

(** *** Basic facts about [draw_point] *)

Section DrawPoint.
Context (c : canvas) (col : color).

Lemma draw_point_width x y : width (draw_point c x y col) = width c.
Proof. reflexivity. Qed.

Lemma draw_point_height x y : height (draw_point c x y col) = height c.
Proof. reflexivity. Qed.

Lemma draw_point_stride x y : stride (draw_point c x y col) = stride c.
Proof. reflexivity. Qed.

Lemma draw_point_length x y :
    length (buffer (draw_point c x y col)) = length (buffer c).
Proof. simpl. unfold memcpy. apply length_inserts. Qed.

Lemma draw_point_byte_idx x y x' y' :
    byte_idx (draw_point c x y col) x' y' = byte_idx c x' y'.
Proof. reflexivity. Qed.
End DrawPoint.

(** Without overflow the indices are the plain products. *)
Lemma pixel_idx_exact c x y :
  is_u16 (width c) → 0 ≤ x < 2 ^ 16 → 0 ≤ y < 2 ^ 16 →
  pixel_idx c x y = y * width c + x.
Proof.
  unfold pixel_idx. intros Hw Hx Hy.
  rewrite (u64_small (y * width c)) by (widths; nia).
  apply u64_small. widths. nia.
Qed.

Lemma byte_idx_exact c x y :
  is_u16 (width c) → is_u32 (stride c) → 0 ≤ x < 2 ^ 16 → 0 ≤ y < 2 ^ 16 →
  byte_idx c x y = (y * width c + x) * stride c.
Proof.
  unfold byte_idx. intros Hw Hs Hx Hy.
  rewrite pixel_idx_exact by done.
  apply u64_small. widths.
  assert (0 ≤ y * width c + x < 4294967296) by nia.
  nia.
Qed.

Lemma canvas_buffer_size_exact c :
  is_u16 (width c) → is_u16 (height c) → is_u32 (stride c) →
  canvas_buffer_size c = width c * height c * stride c.
Proof.
  unfold canvas_buffer_size. intros Hw Hh Hs.
  rewrite (u64_small (width c * height c)) by (widths; nia).
  apply u64_small. widths.
  assert (0 ≤ width c * height c < 4294967296) by nia.
  nia.
Qed.

(** *** Reading back what [draw_point] wrote *)

(** [(x, y)] names a pixel of the canvas. *)
Definition on_canvas (c : canvas) (p : Z * Z) : Prop :=
  0 ≤ p.1 < width c ∧ 0 ≤ p.2 < height c.

(** The value [read_pixel] returns for a pixel painted with [col]. *)
Definition painted (col : color) : list (option Z) :=
  [Some (color_b col); Some (color_g col); Some (color_r col); Some 0xFF].

Lemma on_canvas_offset c p :
  canvas_wf c → 4 ≤ stride c → on_canvas c p →
  byte_idx c p.1 p.2 = (p.2 * width c + p.1) * stride c ∧
  0 ≤ byte_idx c p.1 p.2 ∧
  byte_idx c p.1 p.2 + 4 ≤ Z.of_nat (length (buffer c)).
Proof.
  intros [Hw Hh Hs Hb] Hs4 [Hx Hy].
  rewrite Hb, canvas_buffer_size_exact by done.
  rewrite byte_idx_exact by (try done; widths; lia).
  widths.
  assert (p.2 * width c + p.1 + 1 ≤ width c * height c) by nia.
  split; [done|]. split; nia.
Qed.

Lemma draw_point_wf c x y col : canvas_wf c → canvas_wf (draw_point c x y col).
Proof.
  intros [Hw Hh Hs Hb]. split; try done.
  rewrite draw_point_length. exact Hb.
Qed.

Lemma draw_point_on_canvas c x y col p :
  on_canvas (draw_point c x y col) p ↔ on_canvas c p.
Proof. reflexivity. Qed.

(** The pixel just written reads back as the colour with alpha 0xFF. *)
Lemma read_pixel_draw_point_same c col p :
  canvas_wf c → 4 ≤ stride c → on_canvas c p →
  read_pixel (draw_point c p.1 p.2 col) p.1 p.2 = painted col.
Proof.
  intros Hwf Hs Hp.
  destruct (on_canvas_offset c p Hwf Hs Hp) as (_ & Hlo & Hhi).
  unfold read_pixel, painted. rewrite draw_point_byte_idx. simpl.
  unfold memcpy.
  set (o := Z.to_nat (byte_idx c p.1 p.2)).
  assert (o + 4 ≤ length (buffer c))%nat by lia.
  rewrite !list_lookup_inserts by (simpl; lia).
  replace (o - o)%nat with 0%nat by lia.
  replace (S o - o)%nat with 1%nat by lia.
  replace (S (S o) - o)%nat with 2%nat by lia.
  replace (S (S (S o)) - o)%nat with 3%nat by lia.
  reflexivity.
Qed.

(** Two distinct pixels of a canvas with at least four bytes per pixel do
    not overlap. *)
Lemma read_pixel_draw_point_other c col p q :
  canvas_wf c → 4 ≤ stride c → on_canvas c p → on_canvas c q → p ≠ q →
  read_pixel (draw_point c p.1 p.2 col) q.1 q.2 = read_pixel c q.1 q.2.
Proof.
  intros Hwf Hs Hp Hq Hne.
  destruct (on_canvas_offset c p Hwf Hs Hp) as (Ep & Hplo & Hphi).
  destruct (on_canvas_offset c q Hwf Hs Hq) as (Eq & Hqlo & Hqhi).
  assert (p.2 * width c + p.1 ≠ q.2 * width c + q.1) as Hidx.
  { destruct p as [px py], q as [qx qy], Hp, Hq. simpl in *.
    intros E. apply Hne.
    assert (py = qy) by nia. subst. f_equal. lia. }
  unfold read_pixel. rewrite draw_point_byte_idx. simpl. unfold memcpy.
  set (op := Z.to_nat (byte_idx c p.1 p.2)).
  set (oq := Z.to_nat (byte_idx c q.1 q.2)).
  assert (oq + 4 ≤ op ∨ op + 4 ≤ oq)%nat as [Hlt|Hgt].
  { subst op oq. rewrite Ep, Eq in *.
    destruct (Z.lt_ge_cases (q.2 * width c + q.1) (p.2 * width c + p.1));
      [left|right]; nia. }
  - rewrite !list_lookup_inserts_lt by lia. reflexivity.
  - rewrite !list_lookup_inserts_ge by (simpl; lia). reflexivity.
Qed.

(** A pixel stays painted under further points of the same colour, and any
    point of the sequence ends up painted. *)
Lemma read_pixel_draw_points col pts : ∀ c q,
  canvas_wf c → 4 ≤ stride c → Forall (on_canvas c) pts → on_canvas c q →
  read_pixel c q.1 q.2 = painted col ∨ q ∈ pts →
  read_pixel (draw_points c col pts) q.1 q.2 = painted col.
Proof.
  induction pts as [|p pts IH]; intros c q Hwf Hs Hall Hq Hor.
  - destruct Hor as [H|H]; [exact H|]. by apply elem_of_nil in H.
  - apply Forall_cons in Hall as [Hp Hall]. simpl.
    apply IH; try done.
    + by apply draw_point_wf.
    + destruct (decide (p = q)) as [->|Hne].
      * left. by apply read_pixel_draw_point_same.
      * destruct Hor as [H|H].
        -- left. rewrite read_pixel_draw_point_other; done.
        -- apply elem_of_cons in H as [->|H]; [done|]. by right.
Qed.

Lemma elem_of_fill_points c p : p ∈ fill_points c ↔ on_canvas c p.
Proof.
  unfold fill_points, on_canvas. rewrite list_elem_of_In, in_flat_map.
  split.
  - intros (x & Hx & Hy). apply in_map_iff in Hy as (y & <- & Hy).
    apply list_elem_of_In, elem_of_seqZ in Hx.
    apply list_elem_of_In, elem_of_seqZ in Hy. simpl. lia.
  - intros [Hx Hy]. exists p.1. split.
    + apply list_elem_of_In, elem_of_seqZ. lia.
    + apply in_map_iff. exists p.2. split; [by destruct p|].
      apply list_elem_of_In, elem_of_seqZ. lia.
Qed.

(** C10: for a canvas with stride 4 whose buffer has [canvas_buffer_size]
    bytes, and every [x < width], [y < height], the four bytes [draw_point]
    writes at byte offset [(y * width + x) * stride] lie within the buffer. *)
Theorem draw_point_write_in_bounds (c : canvas) (x y : Z) (col : color) :
  stride c = 4 → is_u16 (width c) → is_u16 (height c) →
  Z.of_nat (length (buffer c)) = canvas_buffer_size c →
  0 ≤ x < width c → 0 ≤ y < height c →
  length (mapped col) = 4%nat ∧
  byte_idx c x y = (y * width c + x) * stride c ∧
  0 ≤ byte_idx c x y ∧
  byte_idx c x y + Z.of_nat (length (mapped col)) ≤ Z.of_nat (length (buffer c)).
Proof.
  intros Hs Hw Hh Hb Hx Hy. split; [reflexivity|].
  assert (canvas_wf c) as Hwf.
  { split; try done. rewrite Hs. widths. lia. }
  apply (on_canvas_offset c (x, y) Hwf); [lia|done].
Qed.

(** The canvas [canvas_init_bgra] returns, from an allocator that hands out
    blocks of the requested size, is of that kind. *)
Lemma canvas_init_bgra_wf ms (malloc : Z → option (list Z)) w h c :
  (∀ n buf, malloc n = Some buf → Z.of_nat (length buf) = n) →
  is_u16 w → is_u16 h →
  canvas_init_bgra ms malloc w h = Some c →
  width c = w ∧ height c = h ∧ stride c = 4 ∧ canvas_wf c.
Proof.
  intros Hm Hw Hh. unfold canvas_init_bgra.
  destruct ms; [|done].
  destruct (malloc _) as [buf|] eqn:E; [|done].
  intros [= <-]. split; [done|]. split; [done|]. split; [done|].
  apply Hm in E. split; simpl; try done.
Qed.

(** A 2x2 BGRA canvas of zero bytes, as [canvas_init_bgra] would return. *)
Definition canvas_2x2 : canvas := Canvas 2 2 4 (replicate 16 0).

Lemma draw_point_write_in_bounds_witness :
  length (mapped (Color 1 2 3)) = 4%nat ∧
  byte_idx canvas_2x2 1 1 = (1 * 2 + 1) * 4 ∧
  0 ≤ byte_idx canvas_2x2 1 1 ∧
  byte_idx canvas_2x2 1 1 + Z.of_nat (length (mapped (Color 1 2 3)))
    ≤ Z.of_nat (length (buffer canvas_2x2)).
Proof.
  apply (draw_point_write_in_bounds canvas_2x2 1 1 (Color 1 2 3));
    first [reflexivity | vm_compute; intuition discriminate].
Defined.

(** On a canvas whose stride is the distance between two pixels, at least
    four bytes, and whose buffer has the announced size (what
    [canvas_init_bgra] builds), every pixel [(x, y)] with [x < width] and
    [y < height] reads back after [rendering_fill] as the colour's B, G, R
    bytes followed by the alpha byte 0xFF. The canvases of the display are
    not of this kind: their stride is a row pitch. *)
Theorem fill_then_read (c : canvas) (col : color) (x y : Z) :
  canvas_wf c → 4 ≤ stride c →
  1 ≤ width c → 1 ≤ height c →
  0 ≤ x < width c → 0 ≤ y < height c →
  read_pixel (rendering_fill c col) x y =
    [Some (color_b col); Some (color_g col); Some (color_r col); Some 0xFF].
Proof.
  intros Hwf Hs _ _ Hx Hy.
  apply (read_pixel_draw_points col (fill_points c) c (x, y)); try done.
  - apply Forall_forall. intros p. by rewrite elem_of_fill_points.
  - right. by apply elem_of_fill_points.
Qed.

Lemma fill_then_read_witness :
  read_pixel (rendering_fill canvas_2x2 (Color 0x22 0x22 0x88)) 1 0 =
    [Some 0x88; Some 0x22; Some 0x22; Some 0xFF].
Proof.
  apply (fill_then_read canvas_2x2 (Color 0x22 0x22 0x88) 1 0);
    first [ split; vm_compute; first [reflexivity | intuition discriminate]
          | vm_compute; intuition discriminate ].
Defined.

(** *** rendering_draw_circle *)

(** A loop of [rendering_draw_circle] need not exit. A [run] is what such a
    loop has done once its fuel is used up or it has exited: the [draw_point]
    calls made so far, in order, and whether the loop has exited. *)
Record run := Run { drawn : list (Z * Z); returned : bool }.

(** Sequencing: the continuation only runs once the first part has exited. *)
Definition and_then (r : run) (k : unit → run) : run :=
  if returned r then
    let r' := k () in Run (drawn r ++ drawn r') (returned r')
  else r.

Notation "r ;;; k" := (and_then r (λ _, k))
  (at level 100, k at level 200, right associativity, only parsing).

(** [for (uint16_t eff_x = start; eff_x >= circle->x; eff_x--)]: the
    decrement wraps from 0 to 65535. One unit of fuel per test of the loop
    condition. *)
Fixpoint span_down (fuel : nat) (cx eff_x eff_y : Z) : run :=
  match fuel with
  | O => Run [] false
  | S fuel' =>
    if cx <=? eff_x then
      let r := span_down fuel' cx (u16 (eff_x - 1)) eff_y in
      Run ((eff_x, eff_y) :: drawn r) (returned r)
    else Run [] true
  end.

(** [for (uint16_t eff_x = start; eff_x < circle->x; eff_x++)]: [eff_x]
    stays below a [uint16_t], so the increment never wraps and the loop runs
    over [start .. circle->x - 1]. *)
Definition span_up (cx eff_x eff_y : Z) : run :=
  Run (map (λ x, (x, eff_y)) (seqZ eff_x (cx - eff_x))) true.

(** The eight span loops of one iteration of the [while], in source order. *)
Definition circle_spans (sfuel : nat) (cx cy x y : Z) : run :=
  span_down sfuel cx (u16 (cx + x)) (u16 (cy + y)) ;;;
  span_down sfuel cx (u16 (cx + x)) (u16 (cy - y)) ;;;
  span_up cx (u16 (cx - x)) (u16 (cy - y)) ;;;
  span_up cx (u16 (cx - x)) (u16 (cy + y)) ;;;
  span_down sfuel cx (u16 (cx + y)) (u16 (cy + x)) ;;;
  span_down sfuel cx (u16 (cx + y)) (u16 (cy - x)) ;;;
  span_up cx (u16 (cx - y)) (u16 (cy - x)) ;;;
  span_up cx (u16 (cx - y)) (u16 (cy + x)).

(** [while (x >= y) { ... }]: [x], [y] are [uint16_t], [t1], [t2] are
    [int32_t]. One unit of [fuel] per test of the loop condition; each span
    loop gets [sfuel]. *)
Fixpoint circle_loop (fuel sfuel : nat) (cx cy x y t1 : Z) : run :=
  match fuel with
  | O => Run [] false
  | S fuel' =>
    if y <=? x then
      circle_spans sfuel cx cy x y ;;;
      (let y' := u16 (y + 1) in
       let t1' := i32 (t1 + y') in
       let t2 := i32 (t1' - x) in
       if 0 <=? t2 then circle_loop fuel' sfuel cx cy (u16 (x - 1)) y' t2
       else circle_loop fuel' sfuel cx cy x y' t1')
    else Run [] true
  end.

(** The [draw_point] calls of [rendering_draw_circle]. *)
Definition circle_calls (fuel sfuel : nat) (ci : circle) : run :=
  circle_loop fuel sfuel (circle_x ci) (circle_y ci)
              (circle_r ci) 0 (i32 (circle_r ci ÷ 16)).

(** [rendering_draw_circle]: [None] when the fuel does not suffice for the
    function to return. *)
Definition rendering_draw_circle (fuel sfuel : nat) (c : canvas) (ci : circle)
    (col : color) : option canvas :=
  let r := circle_calls fuel sfuel ci in
  if returned r then Some (draw_points c col (drawn r)) else None.

(** The circle lies fully inside the canvas. *)
Definition fully_inside (c : canvas) (ci : circle) : Prop :=
  0 ≤ circle_x ci - circle_r ci ∧ 0 ≤ circle_y ci - circle_r ci ∧
  circle_x ci + circle_r ci < width c ∧ circle_y ci + circle_r ci < height c.

(** The control state of the [while] alone: whether it exits within [fuel]
    tests of [x >= y], provided every span loop exits. *)
Fixpoint circle_exits (fuel : nat) (x y t1 : Z) : bool :=
  match fuel with
  | O => false
  | S fuel' =>
    if y <=? x then
      let y' := u16 (y + 1) in
      let t1' := i32 (t1 + y') in
      let t2 := i32 (t1' - x) in
      if 0 <=? t2 then circle_exits fuel' (u16 (x - 1)) y' t2
      else circle_exits fuel' x y' t1'
    else true
  end.

(** A 1x1 and a 3x3 BGRA canvas of zero bytes, and a colour to draw with. *)
Definition canvas_1x1 : canvas := Canvas 1 1 4 (replicate 4 0).
Definition canvas_3x3 : canvas := Canvas 3 3 4 (replicate 36 0).
Definition red : color := Color 0xFF 0 0.

(** Enough fuel for any span loop that exits: [eff_x] takes at most 2^16
    values before the test fails. *)
Definition span_fuel : nat := Z.to_nat (2 ^ 16 + 1).

(** **** Span loops *)

Lemma and_then_returned r k :
  returned (and_then r k) = returned r && returned (k ()).
Proof. destruct r as [pts []]; reflexivity. Qed.

(** With the centre in column 0 the test [eff_x >= 0] never fails. *)
Lemma span_down_column_0 fuel : ∀ eff_x eff_y,
  0 ≤ eff_x → returned (span_down fuel 0 eff_x eff_y) = false.
Proof.
  induction fuel as [|fuel IH]; intros eff_x eff_y Hx; [done|].
  cbn [span_down]. destruct (Z.leb_spec 0 eff_x) as [_|Hlt]; [|lia].
  cbn [returned]. apply IH. apply u16_range.
Qed.

(** With the centre in any other column the loop exits, after at most
    [eff_x - cx + 2] tests. *)
Lemma span_down_returns fuel : ∀ cx eff_x eff_y,
  1 ≤ cx → 0 ≤ eff_x < 2 ^ 16 → Z.max 0 (eff_x - cx + 1) < Z.of_nat fuel →
  returned (span_down fuel cx eff_x eff_y) = true.
Proof.
  induction fuel as [|fuel IH]; intros cx eff_x eff_y Hcx Hx Hf; [lia|].
  cbn [span_down]. destruct (Z.leb_spec cx eff_x) as [Hle|Hlt]; [|done].
  cbn [returned]. apply IH; [done|apply u16_range|].
  rewrite u16_small by lia. lia.
Qed.

Lemma span_down_returns_span_fuel cx eff_x eff_y :
  1 ≤ cx → returned (span_down span_fuel cx (u16 eff_x) eff_y) = true.
Proof.
  intros Hcx. apply span_down_returns; [done|apply u16_range|].
  pose proof (u16_range eff_x). unfold span_fuel.
  rewrite Z2Nat.id by (widths; lia). widths. lia.
Qed.

Lemma circle_spans_returns cx cy x y :
  1 ≤ cx → returned (circle_spans span_fuel cx cy x y) = true.
Proof.
  intros Hcx. unfold circle_spans.
  rewrite !and_then_returned, !span_down_returns_span_fuel by done.
  reflexivity.
Qed.

Lemma circle_loop_exits fuel : ∀ cx cy x y t1,
  1 ≤ cx →
  returned (circle_loop fuel span_fuel cx cy x y t1) = circle_exits fuel x y t1.
Proof.
  induction fuel as [|fuel IH]; intros cx cy x y t1 Hcx; [done|].
  cbn [circle_loop circle_exits].
  destruct (y <=? x); [|done].
  rewrite and_then_returned, circle_spans_returns by done.
  cbn [andb]. destruct (0 <=? _); by apply IH.
Qed.

(** **** More fuel extends a run *)

(** [r'] continues [r]: it has made the calls of [r] first, and if [r] had
    already exited it is the same run. *)
Definition extends (r r' : run) : Prop :=
  drawn r `prefix_of` drawn r' ∧ (returned r = true → r' = r).

Lemma extends_refl r : extends r r.
Proof. split; [reflexivity|done]. Qed.

Lemma and_then_extends r r' k k' :
  extends r r' → extends (k ()) (k' ()) → extends (and_then r k) (and_then r' k').
Proof.
  intros [Hp He] [Hkp Hke]. unfold and_then.
  destruct (returned r) eqn:Er.
  - rewrite (He eq_refl), Er. split; simpl.
    + by apply prefix_app.
    + intros Hk. by rewrite (Hke Hk).
  - split; [|by rewrite Er].
    destruct (returned r'); simpl; [|done].
    by apply prefix_app_r.
Qed.

Lemma span_down_extends fuel : ∀ fuel' cx eff_x eff_y,
  (fuel ≤ fuel')%nat →
  extends (span_down fuel cx eff_x eff_y) (span_down fuel' cx eff_x eff_y).
Proof.
  induction fuel as [|fuel IH]; intros fuel' cx eff_x eff_y Hle.
  - split; [apply prefix_nil|done].
  - destruct fuel' as [|fuel']; [lia|]. cbn [span_down].
    destruct (cx <=? eff_x); [|apply extends_refl].
    destruct (IH fuel' cx (u16 (eff_x - 1)) eff_y) as [Hp He]; [lia|].
    split; simpl.
    + by apply prefix_cons.
    + intros Hr. by rewrite (He Hr).
Qed.

Lemma circle_spans_extends sfuel sfuel' cx cy x y :
  (sfuel ≤ sfuel')%nat →
  extends (circle_spans sfuel cx cy x y) (circle_spans sfuel' cx cy x y).
Proof.
  intros Hle. unfold circle_spans.
  repeat (apply and_then_extends;
          [first [by apply span_down_extends | apply extends_refl]|]).
  apply extends_refl.
Qed.

Lemma circle_loop_extends fuel : ∀ fuel' sfuel sfuel' cx cy x y t1,
  (fuel ≤ fuel')%nat → (sfuel ≤ sfuel')%nat →
  extends (circle_loop fuel sfuel cx cy x y t1)
          (circle_loop fuel' sfuel' cx cy x y t1).
Proof.
  induction fuel as [|fuel IH]; intros fuel' sfuel sfuel' cx cy x y t1 Hf Hs.
  - split; [apply prefix_nil|done].
  - destruct fuel' as [|fuel']; [lia|]. cbn [circle_loop].
    destruct (y <=? x); [|apply extends_refl].
    apply and_then_extends; [by apply circle_spans_extends|].
    destruct (0 <=? _); apply IH; lia.
Qed.

(** **** The [while] loop *)

(** For a radius of at least 1 the distance [x - y] shrinks at every
    iteration and neither counter wraps. *)
Lemma circle_exits_measure fuel : ∀ x y t1,
  0 ≤ y → 0 ≤ x ≤ 65534 → (y ≤ x → 1 ≤ x) →
  Z.max 0 (x - y + 1) < Z.of_nat fuel →
  circle_exits fuel x y t1 = true.
Proof.
  induction fuel as [|fuel IH]; intros x y t1 Hy Hx Hpos Hf; [lia|].
  cbn [circle_exits]. destruct (Z.leb_spec y x) as [Hle|Hgt]; [|done].
  rewrite (u16_small (y + 1)) by (widths; lia).
  destruct (0 <=? _).
  - rewrite (u16_small (x - 1)) by (widths; lia). apply IH; lia.
  - apply IH; lia.
Qed.

(** With radius 0 the first iteration takes [x] from 0 to 65535; the loop
    then runs on from [(65535, 1)] and exits within 50000 iterations. *)
Lemma circle_exits_radius_0 :
  circle_exits (Z.to_nat 50000) 0 0 (i32 (0 ÷ 16)) = true.
Proof. vm_compute. reflexivity. Qed.

(** Whenever the centre is not in column 0, [rendering_draw_circle] returns
    for every circle fully inside the canvas (for radius 0 only after the
    long run that follows the wrap of [x]). *)
Lemma circle_returns_off_column_0 (c : canvas) (ci : circle) (col : color) :
  is_u16 (width c) → 0 ≤ circle_r ci → fully_inside c ci →
  1 ≤ circle_x ci →
  ∃ fuel, is_Some (rendering_draw_circle fuel span_fuel c ci col).
Proof.
  intros Hw Hr (Hx0 & Hy0 & Hx1 & Hy1) Hcx.
  assert (∃ fuel, circle_exits fuel (circle_r ci) 0 (i32 (circle_r ci ÷ 16)) = true)
    as [fuel Hfuel].
  { destruct (decide (circle_r ci = 0)) as [->|Hne].
    - exists (Z.to_nat 50000). apply circle_exits_radius_0.
    - exists (Z.to_nat (circle_r ci + 2)).
      apply circle_exits_measure; widths; lia. }
  exists fuel. unfold rendering_draw_circle, circle_calls.
  rewrite circle_loop_exits, Hfuel by done. by eexists.
Qed.

(** With the centre in column 0 the first span loop never exits. *)
Lemma circle_calls_column_0 fuel sfuel (ci : circle) :
  circle_x ci = 0 → 0 ≤ circle_r ci →
  returned (circle_calls fuel sfuel ci) = false.
Proof.
  intros Hcx Hr. unfold circle_calls. rewrite Hcx.
  destruct fuel as [|fuel]; [done|]. cbn [circle_loop].
  rewrite (proj2 (Z.leb_le 0 (circle_r ci)) Hr).
  unfold circle_spans. rewrite !and_then_returned.
  rewrite span_down_column_0 by apply u16_range. reflexivity.
Qed.

(** C5, evaluated on the code: the circle with centre (0, 0) and radius 0
    lies fully inside the 1x1 canvas, and [rendering_draw_circle] does not
    return on it, whatever the fuel. *)
Theorem circle_in_column_0_never_returns :
  fully_inside canvas_1x1 (Circle 0 0 0) ∧
  ∀ fuel sfuel col,
    rendering_draw_circle fuel sfuel canvas_1x1 (Circle 0 0 0) col = None.
Proof.
  split.
  - unfold fully_inside. simpl. lia.
  - intros fuel sfuel col. unfold rendering_draw_circle.
    by rewrite circle_calls_column_0.
Qed.

(** C4, evaluated on the code: for the circle of radius 0 centred at (1, 1)
    on the 3x3 canvas, the second iteration of the [while] (reached because
    [x--] took [x] from 0 to 65535) calls [draw_point] on (2, 0), a pixel of
    the canvas other than the centre, and paints it; the calls of the first
    two iterations are listed, and however long the loop runs they come
    first. *)
Theorem circle_radius_0_draws_off_center :
  on_canvas canvas_3x3 (1, 1) ∧ on_canvas canvas_3x3 (2, 0) ∧
  drawn (circle_calls 2 3 (Circle 1 1 0)) =
    [(1, 1); (1, 1); (1, 1); (1, 1);
     (2, 0); (1, 0); (2, 2); (1, 2); (0, 2); (0, 0)] ∧
  read_pixel canvas_3x3 2 0 = [Some 0; Some 0; Some 0; Some 0] ∧
  read_pixel (draw_points canvas_3x3 red (drawn (circle_calls 2 3 (Circle 1 1 0)))) 2 0
    = painted red ∧
  ∀ fuel sfuel, (2, 0) ∈ drawn (circle_calls (2 + fuel) (3 + sfuel) (Circle 1 1 0)).
Proof.
  split; [by vm_compute|]. split; [by vm_compute|]. split; [by vm_compute|].
  split; [by vm_compute|]. split; [by vm_compute|].
  intros fuel sfuel.
  destruct (circle_loop_extends 2 (2 + fuel) 3 (3 + sfuel) 1 1 0 0 (i32 (0 ÷ 16)))
    as [Hp _]; [lia|lia|].
  eapply elem_of_prefix; [|exact Hp].
  apply list_elem_of_In. vm_compute. do 4 right. left. reflexivity.
Qed.

(** *** rendering_dump_bgra_to_rgba *)

(** [rgba_pixel] of the dump loop: the four bytes of the BGRA pixel at byte
    offset [idx], reordered. A read past the end of the buffer, which C
    leaves undefined, yields 0 here; the loop below never makes one on a
    canvas whose buffer has the announced size. *)
Definition rgba_pixel (buf : list Z) (idx : Z) : list Z :=
  [ buf !!! Z.to_nat (idx + 2);   (* R *)
    buf !!! Z.to_nat (idx + 1);   (* G *)
    buf !!! Z.to_nat (idx + 0);   (* B *)
    buf !!! Z.to_nat (idx + 3) ]. (* A *)

(** [for (uint64_t idx = 0; idx < buffer_size; idx += c->stride)]: the bytes
    written to the file, in order. The inner [while] re-issues [write] until
    all four bytes of the pixel are out; a failing [write] is fatal. One unit
    of fuel per iteration. *)
Fixpoint dump_loop (fuel : nat) (c : canvas) (buffer_size idx : Z) : list Z :=
  match fuel with
  | O => []
  | S fuel' =>
    if idx <? buffer_size then
      rgba_pixel (buffer c) idx ++ dump_loop fuel' c buffer_size (u64 (idx + stride c))
    else []
  end.

(** The content of the file after [rendering_dump_bgra_to_rgba], when [open],
    [write] and [close] succeed; [None] when [assert(c->stride == 4)] fails.
    With stride 4 the loop makes at most [buffer_size] iterations. *)
Definition rendering_dump_bgra_to_rgba (c : canvas) : option (list Z) :=
  if stride c =? 4 then
    let buffer_size := canvas_buffer_size c in
    Some (dump_loop (Z.to_nat buffer_size) c buffer_size 0)
  else None.

(** The dump of every pixel in turn, for a buffer of [n] pixels. *)
Definition swizzled (buf : list Z) (n : Z) : list Z :=
  flat_map (λ k, rgba_pixel buf (4 * k)) (seqZ 0 n).

Lemma dump_loop_pixels fuel : ∀ c i n,
  stride c = 4 → 0 ≤ i → 0 ≤ n < 2 ^ 32 → n - i ≤ Z.of_nat fuel →
  dump_loop fuel c (4 * n) (4 * i) =
    flat_map (λ k, rgba_pixel (buffer c) (4 * k)) (seqZ i (n - i)).
Proof.
  induction fuel as [|fuel IH]; intros c i n Hs Hi Hn Hf.
  - rewrite seqZ_nil by lia. reflexivity.
  - cbn [dump_loop]. destruct (Z.ltb_spec (4 * i) (4 * n)) as [Hlt|Hge].
    + rewrite seqZ_cons by lia. cbn [flat_map]. f_equal.
      rewrite Hs, u64_small by (widths; lia).
      replace (4 * i + 4) with (4 * Z.succ i) by lia.
      replace (Z.pred (n - i)) with (n - Z.succ i) by lia.
      apply IH; lia.
    + rewrite seqZ_nil by lia. reflexivity.
Qed.

Lemma swizzled_length buf n : 0 ≤ n → Z.of_nat (length (swizzled buf n)) = 4 * n.
Proof.
  intros Hn. unfold swizzled.
  rewrite <- (Z2Nat.id n) by done. generalize (Z.to_nat n). clear.
  induction n as [|n IH]; [done|].
  rewrite seqZ_S, flat_map_app, length_app, Nat2Z.inj_add, IH. simpl. lia.
Qed.

Lemma swizzled_lookup buf n p j :
  0 ≤ p < n → (j < 4)%nat →
  swizzled buf n !! (4 * Z.to_nat p + j)%nat = rgba_pixel buf (4 * p) !! j.
Proof.
  intros Hp Hj. unfold swizzled.
  rewrite <- (Z2Nat.id n) in * by lia. revert Hp. generalize (Z.to_nat n). clear -Hj.
  induction n as [|n IH]; intros Hp; [lia|].
  rewrite seqZ_S, flat_map_app.
  pose proof (swizzled_length buf (Z.of_nat n) ltac:(lia)) as Hlen.
  unfold swizzled in Hlen.
  destruct (decide (p < Z.of_nat n)) as [Hlt|Hge].
  - rewrite lookup_app_l by lia. apply IH. lia.
  - assert (p = Z.of_nat n) as -> by lia.
    rewrite lookup_app_r by lia. cbn [flat_map]. rewrite app_nil_r.
    f_equal. lia.
Qed.

(** Where byte [j] of an output pixel comes from in the input pixel. *)
Definition channel (j : nat) : nat :=
  match j with 0 => 2 | 1 => 1 | 2 => 0 | _ => 3 end%nat.

Lemma channel_involutive j : (j < 4)%nat → channel (channel j) = j.
Proof. intros Hj. do 4 (destruct j as [|j]; [done|]). lia. Qed.

Lemma channel_lt j : (j < 4)%nat → (channel j < 4)%nat.
Proof. intros Hj. do 4 (destruct j as [|j]; [simpl; lia|]). lia. Qed.

Lemma swizzled_lookup_channel buf n (p j : nat) :
  Z.of_nat (length buf) = 4 * n → Z.of_nat p < n → (j < 4)%nat →
  swizzled buf n !! (4 * p + j)%nat = buf !! (4 * p + channel j)%nat.
Proof.
  intros Hlen Hp Hj.
  pose proof (swizzled_lookup buf n (Z.of_nat p) j ltac:(lia) Hj) as H.
  rewrite Nat2Z.id in H. rewrite H. clear H.
  pose proof (channel_lt j Hj) as Hc.
  rewrite (list_lookup_lookup_total_lt buf (4 * p + channel j)) by lia.
  unfold rgba_pixel.
  do 4 (destruct j as [|j]; [simpl; do 2 f_equal; lia|]). lia.
Qed.

Lemma swizzled_swizzled buf n :
  0 ≤ n → Z.of_nat (length buf) = 4 * n → swizzled (swizzled buf n) n = buf.
Proof.
  intros Hn Hlen. apply list_eq. intros i.
  pose proof (swizzled_length buf n Hn) as Hl1.
  pose proof (swizzled_length (swizzled buf n) n Hn) as Hl2.
  destruct (decide (i < length buf)%nat) as [Hlt|Hge].
  - assert (i = 4 * (i / 4) + i mod 4)%nat as Ei by apply Nat.div_mod_eq.
    assert (i mod 4 < 4)%nat as Hj by (apply Nat.mod_upper_bound; lia).
    assert (Z.of_nat (i / 4) < n) as Hp by lia.
    rewrite Ei at 1.
    rewrite swizzled_lookup_channel by done.
    rewrite swizzled_lookup_channel by (try done; by apply channel_lt).
    rewrite channel_involutive by done. by rewrite <- Ei.
  - rewrite !lookup_ge_None_2 by lia. reflexivity.
Qed.

Lemma dump_swizzled c :
  canvas_wf c → stride c = 4 →
  rendering_dump_bgra_to_rgba c = Some (swizzled (buffer c) (width c * height c)).
Proof.
  intros [Hw Hh Hs Hb] Hs4. unfold rendering_dump_bgra_to_rgba.
  rewrite Hs4. cbn [Z.eqb Pos.eqb]. f_equal.
  rewrite canvas_buffer_size_exact, Hs4 by done.
  set (n := width c * height c).
  assert (0 ≤ n < 2 ^ 32) by (subst n; widths; nia).
  replace (n * 4) with (4 * n) by lia.
  change 0 with (4 * 0) at 1.
  rewrite dump_loop_pixels by (try done; lia).
  by rewrite Z.sub_0_r.
Qed.

(** C8: for a canvas with stride 4 the dump emits, for each pixel, the bytes
    (input[2], input[1], input[0], input[3]) in that order; the per-pixel
    permutation is an involution, on a single 4-byte pixel and on the whole
    buffer (dumping the dump gives the original bytes back). *)
Theorem dump_channel_swap_involution (c : canvas) :
  canvas_wf c → stride c = 4 →
  ∃ out,
    rendering_dump_bgra_to_rgba c = Some out ∧
    length out = length (buffer c) ∧
    (∀ p : nat, Z.of_nat p < width c * height c →
       out !! (4 * p)%nat = buffer c !! (4 * p + 2)%nat ∧
       out !! (4 * p + 1)%nat = buffer c !! (4 * p + 1)%nat ∧
       out !! (4 * p + 2)%nat = buffer c !! (4 * p)%nat ∧
       out !! (4 * p + 3)%nat = buffer c !! (4 * p + 3)%nat) ∧
    (∀ b g r a, rgba_pixel (rgba_pixel [b; g; r; a] 0) 0 = [b; g; r; a]) ∧
    rendering_dump_bgra_to_rgba (Canvas (width c) (height c) (stride c) out)
      = Some (buffer c).
Proof.
  intros Hwf Hs4. pose proof Hwf as [Hw Hh Hs Hb].
  set (n := width c * height c).
  assert (0 ≤ n) as Hn by (subst n; widths; nia).
  assert (Z.of_nat (length (buffer c)) = 4 * n) as Hlen.
  { rewrite Hb, canvas_buffer_size_exact, Hs4 by done. subst n. lia. }
  pose proof (swizzled_length (buffer c) n Hn) as Hout.
  exists (swizzled (buffer c) n).
  split; [by apply dump_swizzled|]. split; [lia|]. split; [|split].
  - intros p Hp.
    pose proof (swizzled_lookup_channel (buffer c) n p) as H.
    pose proof (H 0%nat Hlen Hp ltac:(lia)) as H0.
    pose proof (H 1%nat Hlen Hp ltac:(lia)) as H1.
    pose proof (H 2%nat Hlen Hp ltac:(lia)) as H2.
    pose proof (H 3%nat Hlen Hp ltac:(lia)) as H3.
    cbn [channel] in *. rewrite !Nat.add_0_r in *. done.
  - reflexivity.
  - rewrite dump_swizzled; [|split; try done|done].
    + cbn [width height buffer]. fold n. f_equal. by apply swizzled_swizzled.
    + cbn [buffer]. rewrite canvas_buffer_size_exact by done.
      cbn [width height stride]. rewrite Hs4. fold n. lia.
Qed.

(** One BGRA pixel (B = 10, G = 20, R = 30, A = 40) on a 1x1 canvas. *)
Definition canvas_one_pixel : canvas := Canvas 1 1 4 [10; 20; 30; 40].

Lemma canvas_one_pixel_wf : canvas_wf canvas_one_pixel.
Proof. split; vm_compute; first [reflexivity | intuition discriminate]. Qed.

Lemma dump_channel_swap_involution_witness :
  ∃ out,
    rendering_dump_bgra_to_rgba canvas_one_pixel = Some out ∧
    length out = length (buffer canvas_one_pixel) ∧
    (∀ p : nat, Z.of_nat p < width canvas_one_pixel * height canvas_one_pixel →
       out !! (4 * p)%nat = buffer canvas_one_pixel !! (4 * p + 2)%nat ∧
       out !! (4 * p + 1)%nat = buffer canvas_one_pixel !! (4 * p + 1)%nat ∧
       out !! (4 * p + 2)%nat = buffer canvas_one_pixel !! (4 * p)%nat ∧
       out !! (4 * p + 3)%nat = buffer canvas_one_pixel !! (4 * p + 3)%nat) ∧
    (∀ b g r a, rgba_pixel (rgba_pixel [b; g; r; a] 0) 0 = [b; g; r; a]) ∧
    rendering_dump_bgra_to_rgba
      (Canvas (width canvas_one_pixel) (height canvas_one_pixel)
              (stride canvas_one_pixel) out)
      = Some (buffer canvas_one_pixel).
Proof.
  apply (dump_channel_swap_involution canvas_one_pixel).
  - exact canvas_one_pixel_wf.
  - reflexivity.
Defined.

Example dump_one_pixel :
  rendering_dump_bgra_to_rgba canvas_one_pixel = Some [30; 20; 10; 40].
Proof. reflexivity. Qed.

(** *** Further properties of the rasterizer *)

(** Drawing never changes the shape of a canvas. *)
Lemma draw_points_shape c col pts :
  width (draw_points c col pts) = width c ∧
  height (draw_points c col pts) = height c ∧
  stride (draw_points c col pts) = stride c ∧
  length (buffer (draw_points c col pts)) = length (buffer c).
Proof.
  revert c. induction pts as [|p pts IH]; intros c; [done|].
  cbn [draw_points foldl]. fold (draw_points (draw_point c p.1 p.2 col) col pts).
  destruct (IH (draw_point c p.1 p.2 col)) as (-> & -> & -> & ->).
  by rewrite draw_point_length.
Qed.

Lemma draw_points_wf c col pts : canvas_wf c → canvas_wf (draw_points c col pts).
Proof.
  intros [Hw Hh Hs Hb].
  destruct (draw_points_shape c col pts) as (Ew & Eh & Es & El).
  split; unfold canvas_buffer_size; rewrite ?Ew, ?Eh, ?Es, ?El; done.
Qed.

(** A pixel that is not among the points keeps its bytes. *)
Lemma read_pixel_draw_points_other col pts : ∀ c q,
  canvas_wf c → 4 ≤ stride c → Forall (on_canvas c) pts → on_canvas c q →
  q ∉ pts →
  read_pixel (draw_points c col pts) q.1 q.2 = read_pixel c q.1 q.2.
Proof.
  induction pts as [|p pts IH]; intros c q Hwf Hs Hall Hq Hnin; [done|].
  apply Forall_cons in Hall as [Hp Hall].
  apply not_elem_of_cons in Hnin as [Hne Hnin]. simpl.
  rewrite IH; try done.
  - apply read_pixel_draw_point_other; done.
  - by apply draw_point_wf.
Qed.

Lemma elem_of_rect_points c rc p :
  p ∈ rect_points c rc ↔
    rect_x rc ≤ p.1 < Z.min (u16 (rect_x rc + rect_w rc)) (width c) ∧
    rect_y rc ≤ p.2 < u16 (rect_y rc + rect_h rc).
Proof.
  unfold rect_points. rewrite list_elem_of_In, in_flat_map. split.
  - intros (y & Hy & Hx). apply in_map_iff in Hx as (x & <- & Hx).
    apply list_elem_of_In, elem_of_seqZ in Hx.
    apply list_elem_of_In, elem_of_seqZ in Hy. simpl. lia.
  - intros [Hx Hy]. exists p.2. split.
    + apply list_elem_of_In, elem_of_seqZ. lia.
    + apply in_map_iff. exists p.1. split; [by destruct p|].
      apply list_elem_of_In, elem_of_seqZ. lia.
Qed.

(** X1: for 16-bit width and height and a 32-bit stride the 64-bit product
    of [canvas_buffer_size] does not wrap: it is [width * height * stride],
    and [width * height * 4] for a BGRA canvas. *)
Theorem canvas_buffer_size_no_wrap (c : canvas) :
  is_u16 (width c) → is_u16 (height c) → is_u32 (stride c) →
  canvas_buffer_size c = width c * height c * stride c ∧
  0 ≤ canvas_buffer_size c < 2 ^ 64 ∧
  (stride c = 4 → canvas_buffer_size c = width c * height c * 4).
Proof.
  intros Hw Hh Hs. rewrite canvas_buffer_size_exact by done.
  split; [done|]. split; [|by intros ->].
  widths. assert (0 ≤ width c * height c < 4294967296) by nia. nia.
Qed.

Lemma canvas_buffer_size_no_wrap_witness :
  canvas_buffer_size canvas_2x2 = width canvas_2x2 * height canvas_2x2 * stride canvas_2x2 ∧
  0 ≤ canvas_buffer_size canvas_2x2 < 2 ^ 64 ∧
  (stride canvas_2x2 = 4 →
   canvas_buffer_size canvas_2x2 = width canvas_2x2 * height canvas_2x2 * 4).
Proof.
  apply (canvas_buffer_size_no_wrap canvas_2x2); vm_compute; intuition discriminate.
Defined.

(** X2: [canvas_init_bgra] fails exactly when one of its two allocations
    does; otherwise the canvas has the requested size, stride 4 and, with an
    allocator that hands out blocks of the requested length, a buffer of
    [width * height * 4] bytes. *)
Theorem canvas_init_bgra_result (ms : bool) (malloc : Z → option (list Z)) (w h : Z) :
  (∀ n buf, malloc n = Some buf → Z.of_nat (length buf) = n) →
  is_u16 w → is_u16 h →
  (canvas_init_bgra ms malloc w h = None ↔ ms = false ∨ malloc (w * h * 4) = None) ∧
  (∀ c, canvas_init_bgra ms malloc w h = Some c →
     width c = w ∧ height c = h ∧ stride c = 4 ∧
     Z.of_nat (length (buffer c)) = w * h * 4 ∧ canvas_wf c).
Proof.
  intros Hm Hw Hh.
  assert (canvas_buffer_size (Canvas w h 4 []) = w * h * 4) as Esz.
  { rewrite canvas_buffer_size_exact by done. reflexivity. }
  unfold canvas_init_bgra. rewrite Esz. split.
  - destruct ms; [|by split; [left|]].
    destruct (malloc (w * h * 4)); split; try done.
    + by intros [|].
    + by right.
  - intros c. destruct ms; [|done].
    destruct (malloc (w * h * 4)) as [buf|] eqn:E; [|done].
    intros [= <-]. apply Hm in E. simpl.
    split; [done|]. split; [done|]. split; [done|]. split; [done|].
    split; simpl; try done.
    change (canvas_buffer_size _) with (canvas_buffer_size (Canvas w h 4 [])).
    by rewrite Esz.
Qed.

(** An allocator that always succeeds, with zeroed blocks. *)
Definition malloc_zeros (n : Z) : option (list Z) :=
  if 0 <=? n then Some (replicate (Z.to_nat n) 0) else None.

Lemma canvas_init_bgra_result_witness :
  (canvas_init_bgra true malloc_zeros 2 2 = None ↔
     true = false ∨ malloc_zeros (2 * 2 * 4) = None) ∧
  (∀ c, canvas_init_bgra true malloc_zeros 2 2 = Some c →
     width c = 2 ∧ height c = 2 ∧ stride c = 4 ∧
     Z.of_nat (length (buffer c)) = 2 * 2 * 4 ∧ canvas_wf c).
Proof.
  apply (canvas_init_bgra_result true malloc_zeros 2 2).
  - intros n buf. unfold malloc_zeros.
    destruct (Z.leb_spec 0 n); [|done].
    intros [= <-]. rewrite length_replicate. lia.
  - vm_compute; intuition discriminate.
  - vm_compute; intuition discriminate.
Defined.

(** X3: a rectangle of width 0 or of height 0 draws nothing: the canvas
    comes back as it was. *)
Theorem draw_rect_empty_is_noop (c : canvas) (rc : rect) (col : color) :
  is_u16 (rect_x rc) → is_u16 (rect_y rc) →
  rect_w rc = 0 ∨ rect_h rc = 0 →
  rendering_draw_rect c rc col = c.
Proof.
  intros Hx Hy Hzero.
  assert (rect_points c rc = []) as Hpts.
  { destruct (rect_points c rc) as [|p pts] eqn:E; [done|].
    assert (p ∈ rect_points c rc) as Hp by (rewrite E; apply list_elem_of_here).
    apply elem_of_rect_points in Hp as [Hpx Hpy].
    destruct Hzero as [Hz|Hz].
    - rewrite Hz, Z.add_0_r, (u16_small (rect_x rc)) in Hpx by exact Hx. lia.
    - rewrite Hz, Z.add_0_r, (u16_small (rect_y rc)) in Hpy by exact Hy. lia. }
  unfold rendering_draw_rect. rewrite Hpts. by destruct c.
Qed.

Lemma draw_rect_empty_is_noop_witness :
  rendering_draw_rect canvas_2x2 (Rect 1 1 0 5) red = canvas_2x2.
Proof.
  apply (draw_rect_empty_is_noop canvas_2x2 (Rect 1 1 0 5) red).
  - vm_compute; intuition discriminate.
  - vm_compute; intuition discriminate.
  - left. reflexivity.
Defined.

(** X4: the right and bottom edges are 16-bit sums. A rectangle whose right
    edge [x + w] or bottom edge [y + h] passes 65535 is not clipped but
    dropped: the edge wraps below the start and nothing is drawn. *)
Theorem draw_rect_wrapped_edge_is_noop (c : canvas) (rc : rect) (col : color) :
  is_u16 (rect_x rc) → is_u16 (rect_y rc) → is_u16 (rect_w rc) → is_u16 (rect_h rc) →
  2 ^ 16 ≤ rect_x rc + rect_w rc ∨ 2 ^ 16 ≤ rect_y rc + rect_h rc →
  rendering_draw_rect c rc col = c.
Proof.
  intros Hx Hy Hw Hh Hwrap.
  assert (rect_points c rc = []) as Hpts.
  { destruct (rect_points c rc) as [|p pts] eqn:E; [done|].
    assert (p ∈ rect_points c rc) as Hp by (rewrite E; apply list_elem_of_here).
    apply elem_of_rect_points in Hp as [Hpx Hpy]. exfalso.
    unfold u16 in *. widths.
    destruct Hwrap as [Hz|Hz].
    - replace ((rect_x rc + rect_w rc) `mod` 65536)
        with (rect_x rc + rect_w rc - 65536) in Hpx; [lia|].
      apply (Z.mod_unique _ _ 1); lia.
    - replace ((rect_y rc + rect_h rc) `mod` 65536)
        with (rect_y rc + rect_h rc - 65536) in Hpy; [lia|].
      apply (Z.mod_unique _ _ 1); lia. }
  unfold rendering_draw_rect. rewrite Hpts. by destruct c.
Qed.

Lemma draw_rect_wrapped_edge_is_noop_witness :
  rendering_draw_rect canvas_2x2 (Rect 1 0 65535 2) red = canvas_2x2.
Proof.
  apply (draw_rect_wrapped_edge_is_noop canvas_2x2 (Rect 1 0 65535 2) red);
    vm_compute; intuition discriminate.
Defined.

(** X5: a rectangle whose rows lie on the canvas and whose right edge does
    not wrap paints exactly the pixels of the canvas inside
    [[x, x+w) × [y, y+h)]: those read back as the colour with alpha 0xFF,
    every other pixel keeps its bytes. Columns past the canvas width are
    clipped. *)
Theorem draw_rect_then_read (c : canvas) (rc : rect) (col : color) (x y : Z) :
  canvas_wf c → 4 ≤ stride c →
  0 ≤ rect_x rc → 0 ≤ rect_y rc → 0 ≤ rect_w rc → 0 ≤ rect_h rc →
  rect_x rc + rect_w rc < 2 ^ 16 →
  rect_y rc + rect_h rc ≤ height c →
  0 ≤ x < width c → 0 ≤ y < height c →
  read_pixel (rendering_draw_rect c rc col) x y =
    if bool_decide (rect_x rc ≤ x < rect_x rc + rect_w rc ∧
                    rect_y rc ≤ y < rect_y rc + rect_h rc)
    then painted col else read_pixel c x y.
Proof.
  intros Hwf Hs Hx0 Hy0 Hw0 Hh0 Hxw Hyh Hx Hy.
  pose proof Hwf as [Hcw Hch _ _].
  assert (u16 (rect_x rc + rect_w rc) = rect_x rc + rect_w rc) as Er
    by (apply u16_small; lia).
  assert (u16 (rect_y rc + rect_h rc) = rect_y rc + rect_h rc) as Eb
    by (apply u16_small; widths; lia).
  assert (Forall (on_canvas c) (rect_points c rc)) as Hall.
  { apply Forall_forall. intros p Hp.
    apply elem_of_rect_points in Hp. rewrite Er, Eb in Hp.
    unfold on_canvas. lia. }
  unfold rendering_draw_rect. case_bool_decide as Hin.
  - apply (read_pixel_draw_points col (rect_points c rc) c (x, y)); try done.
    right. apply elem_of_rect_points. rewrite Er, Eb. simpl. lia.
  - apply (read_pixel_draw_points_other col (rect_points c rc) c (x, y)); try done.
    intros Hp. apply elem_of_rect_points in Hp. rewrite Er, Eb in Hp.
    simpl in Hp. lia.
Qed.

Lemma draw_rect_then_read_witness :
  read_pixel (rendering_draw_rect canvas_3x3 (Rect 1 1 5 2) red) 2 1 =
    if bool_decide (rect_x (Rect 1 1 5 2) ≤ 2 < rect_x (Rect 1 1 5 2) + rect_w (Rect 1 1 5 2) ∧
                    rect_y (Rect 1 1 5 2) ≤ 1 < rect_y (Rect 1 1 5 2) + rect_h (Rect 1 1 5 2))
    then painted red else read_pixel canvas_3x3 2 1.
Proof.
  apply (draw_rect_then_read canvas_3x3 (Rect 1 1 5 2) red 2 1);
    first [ split; vm_compute; first [reflexivity | intuition discriminate]
          | vm_compute; intuition discriminate ].
Defined.

Example draw_rect_clipped :
  read_pixel (rendering_draw_rect canvas_3x3 (Rect 1 1 5 2) red) 2 1 = painted red ∧
  read_pixel (rendering_draw_rect canvas_3x3 (Rect 1 1 5 2) red) 0 1
    = [Some 0; Some 0; Some 0; Some 0].
Proof. by vm_compute. Qed.

(** [n] copies of one 4-byte pixel, as bytes. *)
Definition tiled (n : nat) (px : list Z) : list Z := concat (replicate n px).

(** [n] pixels of one colour, as they lie in a BGRA buffer. *)
Definition solid (n : nat) (col : color) : list Z := tiled n (mapped col).

Lemma tiled_length n px : length px = 4%nat → length (tiled n px) = (4 * n)%nat.
Proof.
  intros Hpx. unfold tiled. induction n as [|n IH]; [done|].
  cbn [replicate concat]. rewrite length_app, IH. lia.
Qed.

Lemma tiled_lookup n px (p j : nat) :
  length px = 4%nat → (p < n)%nat → (j < 4)%nat →
  tiled n px !! (4 * p + j)%nat = px !! j.
Proof.
  intros Hpx. unfold tiled. revert p.
  induction n as [|n IH]; intros p Hp Hj; [lia|].
  cbn [replicate concat]. destruct p as [|p].
  - rewrite lookup_app_l by lia. f_equal.
  - rewrite lookup_app_r by lia.
    replace (4 * S p + j - length px)%nat with (4 * p + j)%nat by lia.
    apply IH; lia.
Qed.

Lemma solid_length n col : length (solid n col) = (4 * n)%nat.
Proof. by apply tiled_length. Qed.

Lemma solid_lookup n col (p j : nat) :
  (p < n)%nat → (j < 4)%nat → solid n col !! (4 * p + j)%nat = mapped col !! j.
Proof. by apply tiled_lookup. Qed.

(** The buffer of a filled BGRA canvas is the fill colour, pixel after
    pixel. *)
Lemma fill_buffer_solid (c : canvas) (col : color) :
  canvas_wf c → stride c = 4 →
  buffer (rendering_fill c col) = solid (Z.to_nat (width c * height c)) col.
Proof.
  intros Hwf Hs4. pose proof Hwf as [Hw Hh Hs Hb].
  set (n := width c * height c).
  assert (0 ≤ n) as Hn by (subst n; widths; nia).
  assert (Z.of_nat (length (buffer c)) = 4 * n) as Hlen.
  { rewrite Hb, canvas_buffer_size_exact, Hs4 by done. subst n. lia. }
  destruct (draw_points_shape c col (fill_points c)) as (_ & _ & _ & El).
  fold (rendering_fill c col) in El.
  apply list_eq. intros i.
  destruct (decide (i < length (buffer c))%nat) as [Hlt|Hge].
  2: { rewrite !lookup_ge_None_2; [done| |]; rewrite ?solid_length; lia. }
  assert (i = 4 * (i / 4) + i mod 4)%nat as Ei by apply Nat.div_mod_eq.
  assert (i mod 4 < 4)%nat as Hj by (apply Nat.mod_upper_bound; lia).
  set (p := Z.of_nat (i / 4)) in *.
  assert (0 ≤ p < n) as Hp by (subst p; lia).
  assert (0 < width c) as Hwpos by (subst n; widths; nia).
  pose proof (Z.mod_pos_bound p (width c) Hwpos) as Hxr.
  pose proof (Z.div_mod p (width c) ltac:(lia)) as Hdm.
  assert (0 ≤ p `div` width c < height c) as Hyr.
  { split; [apply Z.div_pos; lia|].
    apply Z.div_lt_upper_bound; [lia|]. subst n. lia. }
  pose proof (read_pixel_draw_points col (fill_points c) c
                (p `mod` width c, p `div` width c) Hwf ltac:(lia)) as Hread.
  cbn [fst snd] in Hread.
  assert (byte_idx c (p `mod` width c) (p `div` width c) = 4 * p) as Eidx.
  { rewrite byte_idx_exact, Hs4 by (try done; widths; lia). lia. }
  unfold read_pixel in Hread.
  change (byte_idx (draw_points c col (fill_points c)) ?x ?y)
    with (byte_idx (Canvas (width (draw_points c col (fill_points c)))
                           (height (draw_points c col (fill_points c)))
                           (stride (draw_points c col (fill_points c))) []) x y)
    in Hread.
  destruct (draw_points_shape c col (fill_points c)) as (Ew & Eh & Es & _).
  rewrite Ew, Eh, Es in Hread.
  change (byte_idx (Canvas (width c) (height c) (stride c) []) ?x ?y)
    with (byte_idx c x y) in Hread.
  rewrite Eidx in Hread.
  replace (Z.to_nat (4 * p)) with (4 * (i / 4))%nat in Hread by (subst p; lia).
  specialize (Hread ltac:(apply Forall_forall; intros q; by rewrite elem_of_fill_points)
                    ltac:(split; simpl; lia)
                    ltac:(right; apply elem_of_fill_points; split; simpl; lia)).
  unfold painted in Hread. injection Hread as H0 H1 H2 H3.
  rewrite Ei, solid_lookup by (try done; lia).
  unfold rendering_fill.
  destruct (i mod 4)%nat as [|[|[|[|j]]]]; cbn [mapped lookup list_lookup];
    rewrite ?Nat.add_0_r; [exact H0| | | |lia].
  - by replace (4 * (i / 4) + 1)%nat with (S (4 * (i / 4))) by lia.
  - by replace (4 * (i / 4) + 2)%nat with (S (S (4 * (i / 4)))) by lia.
  - by replace (4 * (i / 4) + 3)%nat with (S (S (S (4 * (i / 4))))) by lia.
Qed.

Lemma fill_wf c col : canvas_wf c → canvas_wf (rendering_fill c col).
Proof. apply draw_points_wf. Qed.

(** X6: on a BGRA canvas [rendering_fill] leaves nothing of the previous
    content: the result is the canvas of the same size whose buffer is the
    fill colour (B, G, R, 0xFF) pixel after pixel, so two canvases of one
    size are equal once filled with one colour, and filling twice is filling
    once. *)
Theorem fill_overwrites_everything (c c' : canvas) (col : color) :
  canvas_wf c → stride c = 4 →
  canvas_wf c' → stride c' = 4 → width c' = width c → height c' = height c →
  rendering_fill c col
    = Canvas (width c) (height c) 4 (solid (Z.to_nat (width c * height c)) col) ∧
  rendering_fill c' col = rendering_fill c col ∧
  rendering_fill (rendering_fill c col) col = rendering_fill c col.
Proof.
  intros Hwf Hs Hwf' Hs' Ew Eh.
  assert (∀ d, canvas_wf d → stride d = 4 →
            rendering_fill d col
              = Canvas (width d) (height d) 4 (solid (Z.to_nat (width d * height d)) col))
    as Hfill.
  { intros d Hd Hd4. pose proof (fill_buffer_solid d col Hd Hd4) as Hbuf.
    destruct (draw_points_shape d col (fill_points d)) as (Fw & Fh & Fs & _).
    fold (rendering_fill d col) in Fw, Fh, Fs.
    rewrite <- Hbuf, <- Fw, <- Fh, <- Hd4, <- Fs.
    by destruct (rendering_fill d col). }
  split; [by apply Hfill|]. split.
  - rewrite (Hfill c), (Hfill c') by done. by rewrite Ew, Eh.
  - rewrite (Hfill (rendering_fill c col)).
    + by rewrite (Hfill c).
    + by apply fill_wf.
    + by rewrite (Hfill c).
Qed.

Lemma fill_overwrites_everything_witness :
  rendering_fill canvas_2x2 red
    = Canvas (width canvas_2x2) (height canvas_2x2) 4
             (solid (Z.to_nat (width canvas_2x2 * height canvas_2x2)) red) ∧
  rendering_fill (rendering_draw_rect canvas_2x2 (Rect 0 0 1 1) (Color 1 2 3)) red
    = rendering_fill canvas_2x2 red ∧
  rendering_fill (rendering_fill canvas_2x2 red) red = rendering_fill canvas_2x2 red.
Proof.
  apply (fill_overwrites_everything canvas_2x2
           (rendering_draw_rect canvas_2x2 (Rect 0 0 1 1) (Color 1 2 3)) red);
    first [ reflexivity
          | split; vm_compute; first [reflexivity | intuition discriminate] ].
Defined.

(** X7: dumping a freshly filled BGRA canvas writes the fill colour as
    R, G, B, 0xFF for every pixel, and nothing else. *)
Theorem dump_after_fill (c : canvas) (col : color) :
  canvas_wf c → stride c = 4 →
  rendering_dump_bgra_to_rgba (rendering_fill c col)
    = Some (tiled (Z.to_nat (width c * height c))
                  [color_r col; color_g col; color_b col; 0xFF]).
Proof.
  intros Hwf Hs4. pose proof Hwf as [Hw Hh Hs Hb].
  pose proof (fill_wf c col Hwf) as Hfwf.
  destruct (draw_points_shape c col (fill_points c)) as (Fw & Fh & Fs & Fl).
  fold (rendering_fill c col) in Fw, Fh, Fs, Fl.
  rewrite dump_swizzled by (try done; by rewrite Fs).
  rewrite Fw, Fh, fill_buffer_solid by done. f_equal.
  set (n := width c * height c).
  assert (0 ≤ n) as Hn by (subst n; widths; nia).
  pose proof (solid_length (Z.to_nat n) col) as Hsl.
  pose proof (swizzled_length (solid (Z.to_nat n) col) n Hn) as Hswl.
  apply list_eq. intros i.
  destruct (decide (i < 4 * Z.to_nat n)%nat) as [Hlt|Hge].
  2: { rewrite !lookup_ge_None_2; [done| |]; rewrite ?tiled_length; try done; lia. }
  assert (i = 4 * (i / 4) + i mod 4)%nat as Ei by apply Nat.div_mod_eq.
  assert (i mod 4 < 4)%nat as Hj by (apply Nat.mod_upper_bound; lia).
  rewrite Ei.
  rewrite swizzled_lookup_channel by (try done; lia).
  rewrite solid_lookup by (try apply channel_lt; try done; lia).
  rewrite tiled_lookup by (try done; lia).
  destruct (i mod 4)%nat as [|[|[|[|j]]]]; [done..|lia].
Qed.

Lemma dump_after_fill_witness :
  rendering_dump_bgra_to_rgba (rendering_fill canvas_2x2 (Color 1 2 3))
    = Some (tiled (Z.to_nat (width canvas_2x2 * height canvas_2x2))
                  [color_r (Color 1 2 3); color_g (Color 1 2 3);
                   color_b (Color 1 2 3); 0xFF]).
Proof.
  apply (dump_after_fill canvas_2x2 (Color 1 2 3)).
  - split; vm_compute; first [reflexivity | intuition discriminate].
  - reflexivity.
Defined.

(** *** The circle of radius at least 1, fully inside *)

Lemma and_then_drawn r k p :
  p ∈ drawn (and_then r k) → p ∈ drawn r ∨ p ∈ drawn (k ()).
Proof.
  unfold and_then. destruct (returned r); [|by left].
  simpl. apply elem_of_app.
Qed.

Lemma and_then_drawn_l r k p : p ∈ drawn r → p ∈ drawn (and_then r k).
Proof.
  unfold and_then. destruct (returned r); [|done].
  simpl. intros H. apply elem_of_app. by left.
Qed.

Lemma and_then_drawn_r r k p :
  returned r = true → p ∈ drawn (k ()) → p ∈ drawn (and_then r k).
Proof.
  unfold and_then. intros ->. simpl. intros H. apply elem_of_app. by right.
Qed.

(** With the centre off column 0 a downward span stays between the centre
    column and its start. *)
Lemma span_down_points fuel : ∀ cx s ey p,
  1 ≤ cx → 0 ≤ s < 2 ^ 16 → p ∈ drawn (span_down fuel cx s ey) →
  cx ≤ p.1 ≤ s ∧ p.2 = ey.
Proof.
  induction fuel as [|fuel IH]; intros cx s ey p Hcx Hs Hp.
  - by apply elem_of_nil in Hp.
  - cbn [span_down] in Hp. destruct (Z.leb_spec cx s) as [Hle|Hgt].
    + cbn [drawn] in Hp. apply elem_of_cons in Hp as [->|Hp]; [simpl; lia|].
      rewrite u16_small in Hp by lia.
      apply IH in Hp; [lia|done|lia].
    + by apply elem_of_nil in Hp.
Qed.

(** It reaches every column in between, given the fuel. *)
Lemma span_down_covers fuel : ∀ cx s ey px,
  1 ≤ cx → 0 ≤ s < 2 ^ 16 → cx ≤ px ≤ s → s - px < Z.of_nat fuel →
  (px, ey) ∈ drawn (span_down fuel cx s ey).
Proof.
  induction fuel as [|fuel IH]; intros cx s ey px Hcx Hs Hpx Hf; [lia|].
  cbn [span_down]. destruct (Z.leb_spec cx s) as [Hle|Hgt]; [|lia].
  cbn [drawn]. destruct (decide (px = s)) as [->|Hne]; [apply list_elem_of_here|].
  apply list_elem_of_further. rewrite u16_small by lia. apply IH; lia.
Qed.

Lemma span_up_points cx s ey p :
  p ∈ drawn (span_up cx s ey) ↔ s ≤ p.1 < cx ∧ p.2 = ey.
Proof.
  unfold span_up. cbn [drawn]. rewrite list_elem_of_fmap. split.
  - intros (x & -> & Hx). apply elem_of_seqZ in Hx. simpl. lia.
  - intros [Hx Hy]. exists p.1. split; [destruct p; simpl in *; by subst|].
    apply elem_of_seqZ. lia.
Qed.

(** The bounding box of a circle. *)
Definition in_box (ci : circle) (p : Z * Z) : Prop :=
  circle_x ci - circle_r ci ≤ p.1 ≤ circle_x ci + circle_r ci ∧
  circle_y ci - circle_r ci ≤ p.2 ≤ circle_y ci + circle_r ci.

(** The circle has radius at least 1 and its box fits 16-bit coordinates. *)
Definition proper (ci : circle) : Prop :=
  1 ≤ circle_r ci ∧ circle_r ci ≤ circle_x ci ∧ circle_r ci ≤ circle_y ci ∧
  circle_x ci + circle_r ci < 2 ^ 16 - 1 ∧ circle_y ci + circle_r ci < 2 ^ 16 - 1.

Lemma fully_inside_proper c ci :
  is_u16 (width c) → is_u16 (height c) → 1 ≤ circle_r ci →
  fully_inside c ci → proper ci.
Proof. unfold fully_inside, proper. widths. lia. Qed.

Lemma circle_spans_in_box sfuel (ci : circle) x y p :
  proper ci → 0 ≤ y ≤ x → x ≤ circle_r ci →
  p ∈ drawn (circle_spans sfuel (circle_x ci) (circle_y ci) x y) → in_box ci p.
Proof.
  intros (Hr & Hcx & Hcy & Hxr & Hyr) Hy Hx. unfold circle_spans, in_box.
  widths.
  repeat (intros Hp; apply and_then_drawn in Hp as [Hp|Hp]; revert Hp);
    rewrite !u16_small by (widths; lia); intros Hp;
    first [ apply span_down_points in Hp; widths; lia
          | apply span_up_points in Hp; lia ].
Qed.

Lemma circle_loop_in_box fuel sfuel (ci : circle) : ∀ x y t1 p,
  proper ci → 0 ≤ y → 0 ≤ x ≤ circle_r ci → (y ≤ x → 1 ≤ x) →
  p ∈ drawn (circle_loop fuel sfuel (circle_x ci) (circle_y ci) x y t1) →
  in_box ci p.
Proof.
  induction fuel as [|fuel IH]; intros x y t1 p Hpr Hy Hx Hpos Hp.
  - by apply elem_of_nil in Hp.
  - cbn [circle_loop] in Hp. destruct (Z.leb_spec y x) as [Hle|Hgt].
    2: by apply elem_of_nil in Hp.
    apply and_then_drawn in Hp as [Hp|Hp].
    + eapply circle_spans_in_box; [done| | |exact Hp]; lia.
    + pose proof Hpr as (Hr & Hcx & Hcy & Hxr & Hyr). widths.
      rewrite (u16_small (y + 1)) in Hp by (widths; lia).
      destruct (0 <=? _).
      * rewrite (u16_small (x - 1)) in Hp by (widths; lia).
        apply IH in Hp; try done; lia.
      * apply IH in Hp; try done; lia.
Qed.

(** The first iteration paints the horizontal diameter and the top and
    bottom points. *)
Lemma circle_calls_cover fuel (ci : circle) p :
  proper ci →
  (circle_x ci - circle_r ci ≤ p.1 ≤ circle_x ci + circle_r ci ∧ p.2 = circle_y ci) ∨
  (p.1 = circle_x ci ∧ (p.2 = circle_y ci + circle_r ci ∨ p.2 = circle_y ci - circle_r ci)) →
  p ∈ drawn (circle_calls (S fuel) span_fuel ci).
Proof.
  intros (Hr & Hcx & Hcy & Hxr & Hyr) Hp. widths.
  unfold circle_calls. cbn [circle_loop].
  rewrite (proj2 (Z.leb_le 0 (circle_r ci))) by lia.
  apply and_then_drawn_l. unfold circle_spans.
  rewrite !u16_small by (widths; lia). rewrite Z.add_0_r, Z.sub_0_r.
  assert (Z.of_nat span_fuel = 65537) as Hsf by (unfold span_fuel; widths; lia).
  assert (∀ s ey, 0 ≤ s < 65536 →
            returned (span_down span_fuel (circle_x ci) s ey) = true) as Hret.
  { intros s ey Hs. apply span_down_returns; widths; lia. }
  destruct p as [px py]. cbn [fst snd] in Hp.
  destruct Hp as [[Hpx ->]|[-> Hpy]].
  - destruct (decide (circle_x ci ≤ px)) as [Hge|Hlt].
    + apply and_then_drawn_l, span_down_covers; widths; lia.
    + apply and_then_drawn_r; [apply Hret; lia|].
      apply and_then_drawn_r; [apply Hret; lia|].
      apply and_then_drawn_l, span_up_points. simpl. lia.
  - do 2 (apply and_then_drawn_r; [apply Hret; lia|]).
    do 2 (apply and_then_drawn_r; [done|]).
    destruct Hpy as [->| ->].
    + apply and_then_drawn_l, span_down_covers; widths; lia.
    + apply and_then_drawn_r; [apply Hret; lia|].
      apply and_then_drawn_l, span_down_covers; widths; lia.
Qed.

Lemma circle_calls_returns (ci : circle) :
  proper ci →
  returned (circle_calls (Z.to_nat (circle_r ci + 2)) span_fuel ci) = true.
Proof.
  intros (Hr & Hcx & Hcy & Hxr & Hyr). unfold circle_calls.
  rewrite circle_loop_exits by lia.
  apply circle_exits_measure; widths; lia.
Qed.

(** X8: for a circle of radius at least 1 that lies fully inside the canvas,
    every [draw_point] call of [rendering_draw_circle] is on a pixel of the
    canvas inside the bounding box of the circle, however far the loop is
    run; the function returns after at most [r + 2] tests of [x >= y]; the
    canvas keeps its shape and every pixel outside the box keeps its
    bytes. *)
Theorem draw_circle_stays_inside (c : canvas) (ci : circle) (col : color) :
  canvas_wf c → 4 ≤ stride c → 1 ≤ circle_r ci → fully_inside c ci →
  (∀ fuel sfuel,
     Forall (λ p, in_box ci p ∧ on_canvas c p) (drawn (circle_calls fuel sfuel ci))) ∧
  ∃ c',
    rendering_draw_circle (Z.to_nat (circle_r ci + 2)) span_fuel c ci col = Some c' ∧
    canvas_wf c' ∧ width c' = width c ∧ height c' = height c ∧
    ∀ x y, 0 ≤ x < width c → 0 ≤ y < height c → ¬ in_box ci (x, y) →
      read_pixel c' x y = read_pixel c x y.
Proof.
  intros Hwf Hs Hr Hin. pose proof Hwf as [Hw Hh _ _].
  pose proof (fully_inside_proper c ci Hw Hh Hr Hin) as Hpr.
  assert (∀ fuel sfuel,
            Forall (λ p, in_box ci p ∧ on_canvas c p) (drawn (circle_calls fuel sfuel ci)))
    as Hall.
  { intros fuel sfuel. apply Forall_forall. intros p Hp.
    assert (in_box ci p) as Hbox.
    { unfold circle_calls in Hp. eapply circle_loop_in_box; [done| | | |exact Hp]; lia. }
    split; [done|]. destruct Hin as (? & ? & ? & ?), Hbox.
    unfold on_canvas. lia. }
  split; [done|].
  unfold rendering_draw_circle. rewrite circle_calls_returns by done.
  eexists. split; [reflexivity|].
  set (pts := drawn (circle_calls (Z.to_nat (circle_r ci + 2)) span_fuel ci)).
  destruct (draw_points_shape c col pts) as (Ew & Eh & _ & _).
  split; [by apply draw_points_wf|]. split; [done|]. split; [done|].
  intros x y Hx Hy Hout.
  apply (read_pixel_draw_points_other col pts c (x, y)); try done.
  - eapply Forall_impl; [apply Hall|]. by intros p [_ ?].
  - intros Hp. apply Hout.
    pose proof (Hall (Z.to_nat (circle_r ci + 2)) span_fuel) as Hf.
    rewrite Forall_forall in Hf. by apply Hf in Hp as [? _].
Qed.

Lemma draw_circle_stays_inside_witness :
  (∀ fuel sfuel,
     Forall (λ p, in_box (Circle 1 1 1) p ∧ on_canvas canvas_3x3 p)
            (drawn (circle_calls fuel sfuel (Circle 1 1 1)))) ∧
  ∃ c',
    rendering_draw_circle (Z.to_nat (circle_r (Circle 1 1 1) + 2)) span_fuel
                          canvas_3x3 (Circle 1 1 1) red = Some c' ∧
    canvas_wf c' ∧ width c' = width canvas_3x3 ∧ height c' = height canvas_3x3 ∧
    ∀ x y, 0 ≤ x < width canvas_3x3 → 0 ≤ y < height canvas_3x3 →
      ¬ in_box (Circle 1 1 1) (x, y) →
      read_pixel c' x y = read_pixel canvas_3x3 x y.
Proof.
  apply (draw_circle_stays_inside canvas_3x3 (Circle 1 1 1) red).
  - split; vm_compute; first [reflexivity | intuition discriminate].
  - vm_compute. discriminate.
  - vm_compute. discriminate.
  - unfold fully_inside. simpl. lia.
Defined.

(** X9: such a circle has its whole horizontal diameter painted, from
    [(x - r, y)] to [(x + r, y)], and its top and bottom points [(x, y - r)]
    and [(x, y + r)]. *)
Theorem draw_circle_paints_diameter (c : canvas) (ci : circle) (col : color) :
  canvas_wf c → 4 ≤ stride c → 1 ≤ circle_r ci → fully_inside c ci →
  ∃ c',
    rendering_draw_circle (Z.to_nat (circle_r ci + 2)) span_fuel c ci col = Some c' ∧
    (∀ x, circle_x ci - circle_r ci ≤ x ≤ circle_x ci + circle_r ci →
       read_pixel c' x (circle_y ci) = painted col) ∧
    read_pixel c' (circle_x ci) (circle_y ci - circle_r ci) = painted col ∧
    read_pixel c' (circle_x ci) (circle_y ci + circle_r ci) = painted col.
Proof.
  intros Hwf Hs Hr Hin. pose proof Hwf as [Hw Hh _ _].
  pose proof (fully_inside_proper c ci Hw Hh Hr Hin) as Hpr.
  unfold rendering_draw_circle. rewrite circle_calls_returns by done.
  eexists. split; [reflexivity|].
  set (fuel := Z.to_nat (circle_r ci + 2)).
  assert (fuel = S (Z.to_nat (circle_r ci + 1))) as Efuel by (subst fuel; lia).
  assert (Forall (on_canvas c) (drawn (circle_calls fuel span_fuel ci))) as Hall.
  { apply Forall_forall. intros p Hp.
    assert (in_box ci p) as Hbox.
    { unfold circle_calls in Hp. eapply circle_loop_in_box; [done| | | |exact Hp]; lia. }
    destruct Hin as (? & ? & ? & ?), Hbox. unfold on_canvas. lia. }
  assert (∀ p,
    (circle_x ci - circle_r ci ≤ p.1 ≤ circle_x ci + circle_r ci ∧ p.2 = circle_y ci) ∨
    (p.1 = circle_x ci ∧
       (p.2 = circle_y ci + circle_r ci ∨ p.2 = circle_y ci - circle_r ci)) →
    read_pixel (draw_points c col (drawn (circle_calls fuel span_fuel ci))) p.1 p.2
      = painted col) as Hcover.
  { intros p Hp.
    assert (p ∈ drawn (circle_calls fuel span_fuel ci)) as Hdrawn
      by (rewrite Efuel; by apply circle_calls_cover).
    apply read_pixel_draw_points; try done; [|by right].
    rewrite Forall_forall in Hall. by apply Hall. }
  split; [|split].
  - intros x Hx. apply (Hcover (x, circle_y ci)). left. simpl. lia.
  - apply (Hcover (circle_x ci, circle_y ci - circle_r ci)). right. simpl. lia.
  - apply (Hcover (circle_x ci, circle_y ci + circle_r ci)). right. simpl. lia.
Qed.

Lemma draw_circle_paints_diameter_witness :
  ∃ c',
    rendering_draw_circle (Z.to_nat (circle_r (Circle 1 1 1) + 2)) span_fuel
                          canvas_3x3 (Circle 1 1 1) red = Some c' ∧
    (∀ x, circle_x (Circle 1 1 1) - circle_r (Circle 1 1 1) ≤ x
            ≤ circle_x (Circle 1 1 1) + circle_r (Circle 1 1 1) →
       read_pixel c' x (circle_y (Circle 1 1 1)) = painted red) ∧
    read_pixel c' (circle_x (Circle 1 1 1))
               (circle_y (Circle 1 1 1) - circle_r (Circle 1 1 1)) = painted red ∧
    read_pixel c' (circle_x (Circle 1 1 1))
               (circle_y (Circle 1 1 1) + circle_r (Circle 1 1 1)) = painted red.
Proof.
  apply (draw_circle_paints_diameter canvas_3x3 (Circle 1 1 1) red).
  - split; vm_compute; first [reflexivity | intuition discriminate].
  - vm_compute. discriminate.
  - vm_compute. discriminate.
  - unfold fully_inside. simpl. lia.
Defined.

(** ** backends/drm.c: showing a canvas *)

Module Drm.

(** [struct buffer] of the backend: a dumb buffer and its mapping. *)
Record dumb_buffer := DumbBuffer {
  buf_id : Z;
  buf_stride : Z;
  buf_size : Z;
  buf_data : list Z;
}.

(** [struct rendering_ctx], without the libdrm handles that [show] does not
    read: the CRTC id, the mode, the index of the front buffer and the two
    buffers. *)
Record rendering_ctx := RenderingCtx {
  card_fd : Z;
  crtc_id : Z;
  mode_hdisplay : Z;
  mode_vdisplay : Z;
  front_buf_idx : Z;
  bufs : list dumb_buffer;
}.

(** What one call of [drmModePageFlip] answers: 0, or a failure with
    [errno] set. *)
Inductive flip_result := FlipOk | FlipErr (errno : Z).

Definition EBUSY : Z := 16.

(** How a call ends: it returns, [FATAL_ERR] ends the process, or the fuel is
    used up with the call still inside its loop. *)
Inductive outcome (A : Type) :=
  | Returned (a : A)
  | Fatal
  | Retrying.
Arguments Returned {A} a.
Arguments Fatal {A}.
Arguments Retrying {A}.

(** [ctx->bufs[1 ^ ctx->front_buf_idx]] *)
Definition back_buf_idx (ctx : rendering_ctx) : Z := Z.lxor 1 (front_buf_idx ctx).

(** [while (drmModePageFlip(...) != 0) { if (errno != EBUSY) FATAL_ERR(...); }]:
    [flips k] is the answer to the [k]-th call; one unit of fuel per call. *)
Fixpoint page_flip_loop (fuel : nat) (flips : nat → flip_result) (k : nat)
    : outcome unit :=
  match fuel with
  | O => Retrying
  | S fuel' =>
    match flips k with
    | FlipOk => Returned ()
    | FlipErr errno =>
      if errno =? EBUSY then page_flip_loop fuel' flips (S k) else Fatal
    end
  end.

(** [memcpy(back.data, c->buffer, back.size)] into the mapping of the back
    buffer. *)
Definition blit (back : dumb_buffer) (c : canvas) : dumb_buffer :=
  DumbBuffer (buf_id back) (buf_stride back) (buf_size back)
    (memcpy (buf_data back) 0 (take (Z.to_nat (buf_size back)) (buffer c))).

(** [drm_rendering_show] *)
Definition drm_rendering_show (fuel : nat) (flips : nat → flip_result)
    (ctx : rendering_ctx) (c : canvas) : outcome rendering_ctx :=
  let bi := Z.to_nat (back_buf_idx ctx) in
  let bufs' :=
    match bufs ctx !! bi with
    | Some back => <[bi := blit back c]> (bufs ctx)
    | None => bufs ctx
    end in
  match page_flip_loop fuel flips 0 with
  | Returned _ =>
    (* We now have a new front buffer. *)
    Returned (RenderingCtx (card_fd ctx) (crtc_id ctx) (mode_hdisplay ctx)
                (mode_vdisplay ctx) (Z.lxor (front_buf_idx ctx) 1) bufs')
  | Fatal => Fatal
  | Retrying => Retrying
  end.

(** [drm_canvas_init]: a canvas of the size of the mode, with the stride of
    the front buffer; neither [malloc] is checked. [fresh n] is the content
    of a new block of [n] bytes. *)
Definition drm_canvas_init (fresh : Z → list Z) (ctx : rendering_ctx)
    : option canvas :=
  match bufs ctx !! Z.to_nat (front_buf_idx ctx) with
  | Some front =>
    Some (Canvas (mode_hdisplay ctx) (mode_vdisplay ctx) (buf_stride front)
                 (fresh (buf_size front)))
  | None => None
  end.

(** [struct rendering_vtable]: the entries the pane store calls. The context
    is type-erased in C; the table has one implementation. *)
Record rendering_vtable := RenderingVtable {
  rendering_show :
    nat → (nat → flip_result) → rendering_ctx → canvas → outcome rendering_ctx;
  canvas_init : (Z → list Z) → rendering_ctx → option canvas;
}.

Inductive backend := BACKEND_DRM.

(** [supported_backends] of [rendering.c]. *)
Definition supported_backends (b : backend) : rendering_vtable :=
  match b with
  | BACKEND_DRM =>
    {| rendering_show := drm_rendering_show; canvas_init := drm_canvas_init |}
  end.

(** [rendering_show] of the single-file [rendering.c], from before the
    backend table: one flip request, any failure fatal. The table above does
    not reach it. *)
Definition rendering_show_direct (flips : nat → flip_result)
    (ctx : rendering_ctx) (c : canvas) : outcome rendering_ctx :=
  let bi := Z.to_nat (back_buf_idx ctx) in
  let bufs' :=
    match bufs ctx !! bi with
    | Some back => <[bi := blit back c]> (bufs ctx)
    | None => bufs ctx
    end in
  match flips 0%nat with
  | FlipOk =>
    Returned (RenderingCtx (card_fd ctx) (crtc_id ctx) (mode_hdisplay ctx)
                (mode_vdisplay ctx) (Z.lxor (front_buf_idx ctx) 1) bufs')
  | FlipErr _ => Fatal
  end.

(** A context with two 16-byte buffers, buffer 0 in front. *)
Definition ctx_2x2 : rendering_ctx :=
  RenderingCtx 3 41 2 2 0
    [DumbBuffer 7 8 16 (replicate 16 0); DumbBuffer 8 8 16 (replicate 16 0)].

(** Busy twice, then the flip is accepted. *)
Definition busy_twice (k : nat) : flip_result :=
  if (k <? 2)%nat then FlipErr EBUSY else FlipOk.

Lemma page_flip_loop_busy fuel : ∀ flips k n,
  (∀ j, (j < n)%nat → flips (k + j)%nat = FlipErr EBUSY) →
  (fuel ≤ n)%nat →
  page_flip_loop fuel flips k = Retrying.
Proof.
  induction fuel as [|fuel IH]; intros flips k n Hbusy Hle; [done|].
  cbn [page_flip_loop].
  pose proof (Hbusy 0%nat ltac:(lia)) as H0. rewrite Nat.add_0_r in H0.
  rewrite H0. cbn. apply (IH flips (S k) (n - 1)%nat); [|lia].
  intros j Hj. replace (S k + j)%nat with (k + S j)%nat by lia.
  apply Hbusy. lia.
Qed.

Lemma page_flip_loop_skip_busy n : ∀ flips k fuel,
  (∀ j, (j < n)%nat → flips (k + j)%nat = FlipErr EBUSY) →
  page_flip_loop (n + fuel) flips k = page_flip_loop fuel flips (k + n).
Proof.
  induction n as [|n IH]; intros flips k fuel Hbusy.
  - by rewrite Nat.add_0_r.
  - cbn [Nat.add page_flip_loop].
    pose proof (Hbusy 0%nat ltac:(lia)) as H0. rewrite Nat.add_0_r in H0.
    rewrite H0. cbn. rewrite IH.
    + f_equal. lia.
    + intros j Hj. replace (S k + j)%nat with (k + S j)%nat by lia.
      apply Hbusy. lia.
Qed.

(** [show], as the backend table dispatches it. While every answer is
    busy the call stays in its loop and is never fatal; busy answers followed
    by a success make the call return with the front index toggled, so that
    front and back swap; busy answers followed by any other failure are
    fatal. *)
Theorem show_retries_busy (ctx : rendering_ctx) (c : canvas)
    (flips : nat → flip_result) (n : nat) :
  (∀ k, (k < n)%nat → flips k = FlipErr EBUSY) →
  let show := rendering_show (supported_backends BACKEND_DRM) in
  (∀ fuel, (fuel ≤ n)%nat → show fuel flips ctx c = Retrying) ∧
  (flips n = FlipOk → ∀ fuel, (n < fuel)%nat →
     ∃ ctx', show fuel flips ctx c = Returned ctx' ∧
       front_buf_idx ctx' = Z.lxor (front_buf_idx ctx) 1 ∧
       (front_buf_idx ctx = 0 ∨ front_buf_idx ctx = 1 →
          front_buf_idx ctx' = back_buf_idx ctx ∧
          back_buf_idx ctx' = front_buf_idx ctx)) ∧
  (∀ e, flips n = FlipErr e → e ≠ EBUSY → ∀ fuel, (n < fuel)%nat →
     show fuel flips ctx c = Fatal).
Proof.
  intros Hbusy show. subst show. cbn [supported_backends rendering_show].
  unfold drm_rendering_show. split; [|split].
  - intros fuel Hle. rewrite (page_flip_loop_busy fuel flips 0 n); done.
  - intros Hok fuel Hlt.
    replace fuel with (n + S (fuel - n - 1))%nat by lia.
    rewrite page_flip_loop_skip_busy by done.
    cbn [Nat.add page_flip_loop]. rewrite Hok.
    eexists. split; [reflexivity|]. cbn [front_buf_idx]. split; [done|].
    unfold back_buf_idx. cbn [front_buf_idx]. by intros [-> | ->].
  - intros e He Hne fuel Hlt.
    replace fuel with (n + S (fuel - n - 1))%nat by lia.
    rewrite page_flip_loop_skip_busy by done.
    cbn [Nat.add page_flip_loop]. rewrite He.
    by rewrite (proj2 (Z.eqb_neq e EBUSY) Hne).
Qed.

Lemma show_retries_busy_witness :
  let show := rendering_show (supported_backends BACKEND_DRM) in
  (∀ fuel, (fuel ≤ 2)%nat → show fuel busy_twice ctx_2x2 canvas_2x2 = Retrying) ∧
  (busy_twice 2 = FlipOk → ∀ fuel, (2 < fuel)%nat →
     ∃ ctx', show fuel busy_twice ctx_2x2 canvas_2x2 = Returned ctx' ∧
       front_buf_idx ctx' = Z.lxor (front_buf_idx ctx_2x2) 1 ∧
       (front_buf_idx ctx_2x2 = 0 ∨ front_buf_idx ctx_2x2 = 1 →
          front_buf_idx ctx' = back_buf_idx ctx_2x2 ∧
          back_buf_idx ctx' = front_buf_idx ctx_2x2)) ∧
  (∀ e, busy_twice 2 = FlipErr e → e ≠ EBUSY → ∀ fuel, (2 < fuel)%nat →
     show fuel busy_twice ctx_2x2 canvas_2x2 = Fatal).
Proof.
  apply (show_retries_busy ctx_2x2 canvas_2x2 busy_twice 2).
  intros k Hk. unfold busy_twice.
  destruct k as [|[|k]]; [reflexivity|reflexivity|lia].
Defined.

(** The earlier direct [rendering_show] did not retry: there a busy answer
    ends the process. *)
Lemma rendering_show_direct_busy flips ctx c :
  flips 0%nat = FlipErr EBUSY → rendering_show_direct flips ctx c = Fatal.
Proof. intros H. unfold rendering_show_direct. by rewrite H. Qed.

(** C3: the [rendering_show] of the single-file [rendering.c] asks for the
    flip once and takes any failure as fatal. When the display answers busy
    [n >= 1] times and then accepts the flip, it ends the process on the
    first answer, where [drm_rendering_show], the entry of the backend
    table, asks again [n] times and returns with front and back swapped. *)
Theorem direct_show_does_not_retry (ctx : rendering_ctx) (c : canvas)
    (flips : nat → flip_result) (n : nat) :
  (0 < n)%nat →
  (∀ k, (k < n)%nat → flips k = FlipErr EBUSY) → flips n = FlipOk →
  rendering_show_direct flips ctx c = Fatal ∧
  ∃ ctx',
    rendering_show (supported_backends BACKEND_DRM) (S n) flips ctx c = Returned ctx' ∧
    front_buf_idx ctx' = Z.lxor (front_buf_idx ctx) 1.
Proof.
  intros Hn Hbusy Hok. split.
  - apply rendering_show_direct_busy, Hbusy, Hn.
  - cbn [supported_backends rendering_show]. unfold drm_rendering_show.
    replace (S n) with (n + 1)%nat by lia.
    rewrite page_flip_loop_skip_busy by done.
    cbn [Nat.add page_flip_loop]. rewrite Hok.
    eexists. split; reflexivity.
Qed.

Lemma direct_show_does_not_retry_witness :
  rendering_show_direct busy_twice ctx_2x2 canvas_2x2 = Fatal ∧
  ∃ ctx',
    rendering_show (supported_backends BACKEND_DRM) 3 busy_twice ctx_2x2 canvas_2x2
      = Returned ctx' ∧
    front_buf_idx ctx' = Z.lxor (front_buf_idx ctx_2x2) 1.
Proof.
  apply (direct_show_does_not_retry ctx_2x2 canvas_2x2 busy_twice 2).
  - lia.
  - intros k Hk. unfold busy_twice.
    destruct k as [|[|k]]; [reflexivity|reflexivity|lia].
  - reflexivity.
Defined.

(** *** Filling a canvas of the display *)

(** C7: the canvases the program fills are those of [drm_canvas_init],
    which is [canvas_init] of the single-file [rendering.c] (the root pane
    in [ui_ctx_new], a new pane in [ui_pane_create]): their stride
    is the pitch of the front buffer, the bytes of one row, and their buffer
    has the size of that buffer, pitch times height. [draw_point] multiplies
    the pixel index [y * width + x] by the stride, so on a mode at least two
    pixels wide every pixel whose index is not below the height is addressed
    at or past the end of the buffer, and [rendering_fill], which calls
    [draw_point] on every pixel, writes there; read back after the fill,
    none of the four bytes of such a pixel is a byte of the buffer. The last
    pixel of the canvas is always one of them. *)
Theorem fill_writes_past_display_canvas (fresh : Z → list Z) (ctx : rendering_ctx)
    (front : dumb_buffer) (col : color) :
  bufs ctx !! Z.to_nat (front_buf_idx ctx) = Some front →
  (∀ n, 0 ≤ n → Z.of_nat (length (fresh n)) = n) →
  2 ≤ mode_hdisplay ctx < 2 ^ 16 → 1 ≤ mode_vdisplay ctx < 2 ^ 16 →
  4 * mode_hdisplay ctx ≤ buf_stride front < 2 ^ 32 →
  buf_size front = buf_stride front * mode_vdisplay ctx →
  ∃ c,
    drm_canvas_init fresh ctx = Some c ∧
    Z.of_nat (length (buffer c)) = stride c * height c ∧
    (∀ x y, (x, y) ∈ fill_points c → height c ≤ y * width c + x →
       byte_idx c x y = (y * width c + x) * stride c ∧
       Z.of_nat (length (buffer c)) ≤ byte_idx c x y ∧
       Z.of_nat (length (buffer c))
         < byte_idx c x y + Z.of_nat (length (mapped col)) ∧
       read_pixel (rendering_fill c col) x y = [None; None; None; None]) ∧
    (width c - 1, height c - 1) ∈ fill_points c ∧
    height c ≤ (height c - 1) * width c + (width c - 1).
Proof.
  intros Hfront Hfresh Hw Hh Hs Hsize. unfold drm_canvas_init. rewrite Hfront.
  eexists. split; [reflexivity|].
  set (c := Canvas _ _ _ _).
  assert (0 ≤ buf_size front) as Hpos by (rewrite Hsize; widths; nia).
  assert (Z.of_nat (length (buffer c)) = stride c * height c) as Hlen.
  { subst c. cbn [width height stride buffer]. by rewrite (Hfresh _ Hpos). }
  split; [done|]. split; [|split].
  - intros x y Hin Hidx. apply elem_of_fill_points in Hin as [Hx Hy].
    cbn [fst snd] in Hx, Hy.
    assert (byte_idx c x y = (y * width c + x) * stride c) as Eb
      by (apply byte_idx_exact; subst c; cbn [width height stride] in *; widths; lia).
    assert (Z.of_nat (length (buffer c)) ≤ byte_idx c x y) as Hout.
    { rewrite Eb, Hlen. subst c. cbn [width height stride] in *. widths. nia. }
    split; [done|]. split; [done|]. split; [cbn [mapped length]; lia|].
    unfold rendering_fill, read_pixel.
    destruct (draw_points_shape c col (fill_points c)) as (Ew & _ & Es & El).
    replace (byte_idx (draw_points c col (fill_points c)) x y) with (byte_idx c x y)
      by (unfold byte_idx, pixel_idx; by rewrite Ew, Es).
    rewrite !lookup_ge_None_2 by (rewrite El; lia). reflexivity.
  - apply elem_of_fill_points. subst c. split; cbn [fst snd width height]; lia.
  - subst c. cbn [width height]. widths. nia.
Qed.

Lemma fill_writes_past_display_canvas_witness :
  ∃ c,
    drm_canvas_init (λ n, replicate (Z.to_nat n) 0) ctx_2x2 = Some c ∧
    Z.of_nat (length (buffer c)) = stride c * height c ∧
    (∀ x y, (x, y) ∈ fill_points c → height c ≤ y * width c + x →
       byte_idx c x y = (y * width c + x) * stride c ∧
       Z.of_nat (length (buffer c)) ≤ byte_idx c x y ∧
       Z.of_nat (length (buffer c))
         < byte_idx c x y + Z.of_nat (length (mapped (Color 0x22 0x22 0x88))) ∧
       read_pixel (rendering_fill c (Color 0x22 0x22 0x88)) x y
         = [None; None; None; None]) ∧
    (width c - 1, height c - 1) ∈ fill_points c ∧
    height c ≤ (height c - 1) * width c + (width c - 1).
Proof.
  apply (fill_writes_past_display_canvas (λ n, replicate (Z.to_nat n) 0) ctx_2x2
           (DumbBuffer 7 8 16 (replicate 16 0)) (Color 0x22 0x22 0x88)).
  - reflexivity.
  - intros n Hn. rewrite length_replicate. lia.
  - vm_compute. intuition discriminate.
  - vm_compute. intuition discriminate.
  - vm_compute. intuition discriminate.
  - reflexivity.
Defined.

(** On the 2x2 mode with a pitch of 8 bytes the canvas has 16 bytes, and the
    fill addresses the pixels (0, 1) and (1, 1) at the offsets 16 and 24. *)
Example fill_2x2_offsets :
  drm_canvas_init (λ n, replicate (Z.to_nat n) 0) ctx_2x2
    = Some (Canvas 2 2 8 (replicate 16 0)) ∧
  (λ p, byte_idx (Canvas 2 2 8 (replicate 16 0)) p.1 p.2)
    <$> fill_points (Canvas 2 2 8 (replicate 16 0)) = [0; 16; 8; 24].
Proof. split; reflexivity. Qed.

(** *** Acquiring the display: the scans of [drm_rendering_init] *)

(** What libdrm reports about a connector, a CRTC and a plane, as far as the
    scans read it. *)
Record connector := Connector {
  connector_id : Z;
  connection : Z;
  count_modes : Z;
}.

Record crtc := Crtc {
  crtc_crtc_id : Z;
  mode_valid : Z;
  crtc_hdisplay : Z;
  crtc_vdisplay : Z;
}.

Record plane := Plane {
  plane_id : Z;
  plane_crtc_id : Z;
}.

(** One entry of [drmModeObjectProperties]: the name [drmModeGetProperty]
    gives for [props->props[i]], and [props->prop_values[i]]. *)
Record property := Property {
  prop_name : string;
  prop_value : Z;
}.

Definition DRM_MODE_CONNECTED : Z := 1.
Definition DRM_PLANE_TYPE_PRIMARY : Z := 1.

(** [conn->connection == DRM_MODE_CONNECTED && conn->count_modes > 0] *)
Definition usable (conn : connector) : bool :=
  (connection conn =? DRM_MODE_CONNECTED) && (0 <? count_modes conn).

(** [init_conn]: [ids] is [res->connectors], [get] is [drmModeGetConnector]
    ([None] for [NULL]). The first usable connector is kept; a connector that
    cannot be read, or the end of the list, is fatal. *)
Fixpoint init_conn (get : Z → option connector) (ids : list Z) : outcome connector :=
  match ids with
  | [] => Fatal (* No connectors are available. *)
  | conn_id :: ids' =>
    match get conn_id with
    | None => Fatal (* drmModeGetConnector failed *)
    | Some conn => if usable conn then Returned conn else init_conn get ids'
    end
  end.

(** [init_crtc]: [ids] is [res->crtcs], [get] is [drmModeGetCrtc]. The loop
    breaks on the first CRTC with a valid mode. *)
Fixpoint init_crtc (get : Z → option crtc) (ids : list Z) : outcome crtc :=
  match ids with
  | [] => Fatal (* No appropriate CRTC found. *)
  | crtc_id :: ids' =>
    match get crtc_id with
    | None => Fatal (* drmModeGetCrtc failed *)
    | Some crtc => if mode_valid crtc =? 0 then init_crtc get ids' else Returned crtc
    end
  end.

(** The loop of [is_primary_plane] over the properties of a plane: the first
    property called "type" decides; without one the process ends. *)
Fixpoint type_is_primary (props : list property) : outcome bool :=
  match props with
  | [] => Fatal (* No primary plane could be found. *)
  | p :: props' =>
    if String.eqb (prop_name p) "type"
    then Returned (prop_value p =? DRM_PLANE_TYPE_PRIMARY)
    else type_is_primary props'
  end.

(** [is_primary_plane]: [get_props] is [drmModeObjectGetProperties] ([None]
    for [NULL], which is fatal). *)
Definition is_primary_plane (get_props : Z → option (list property)) (id : Z)
    : outcome bool :=
  match get_props id with
  | None => Fatal (* drmModeObjectGetProperties failed *)
  | Some props => type_is_primary props
  end.

(** [init_plane]: [planes] are the planes [drmModeGetPlane] returns for the
    ids of [drmModeGetPlaneResources], in order (neither call is checked by
    the code). [is_primary_plane] is only asked about planes on the CRTC. *)
Fixpoint init_plane (get_props : Z → option (list property)) (crtc_id : Z)
    (planes : list plane) : outcome plane :=
  match planes with
  | [] => Fatal (* No valid plane found. *)
  | pl :: planes' =>
    if plane_crtc_id pl =? crtc_id then
      match is_primary_plane get_props (plane_id pl) with
      | Returned true => Returned pl
      | Returned false => init_plane get_props crtc_id planes'
      | Fatal => Fatal
      | Retrying => Retrying
      end
    else init_plane get_props crtc_id planes'
  end.

(** [strncmp(card_candidate->d_name, "card", 4) == 0] *)
Definition is_card (d_name : string) : bool := String.prefix "card" d_name.

(** [find_card]: [entries] are the names [readdir] returns for /dev/dri, in
    order ([opendir] has succeeded), [openat] the descriptor for a name
    ([None] for a negative result). *)
Fixpoint find_card (openat : string → option Z) (entries : list string) : outcome Z :=
  match entries with
  | [] => Fatal (* No appropriate card found. *)
  | d_name :: entries' =>
    if is_card d_name then
      match openat d_name with
      | Some fd => Returned fd
      | None => Fatal (* Failed to open device *)
      end
    else find_card openat entries'
  end.

(** X10: [init_conn] returns a connector exactly when some connector of the
    list is connected with at least one mode and every connector before the
    first such one could be read; it then returns that first one. In every
    other case the process ends. *)
Theorem init_conn_first_usable (get : Z → option connector) (ids : list Z) :
  (∀ conn,
     init_conn get ids = Returned conn ↔
     ∃ pre id post,
       ids = pre ++ id :: post ∧ get id = Some conn ∧ usable conn = true ∧
       Forall (λ i, ∃ c, get i = Some c ∧ usable c = false) pre) ∧
  ((∀ conn, init_conn get ids ≠ Returned conn) → init_conn get ids = Fatal).
Proof.
  split.
  - intros conn. induction ids as [|i ids IH].
    + split; [done|]. intros (pre & id & post & E & _). by destruct pre.
    + cbn [init_conn]. destruct (get i) as [c|] eqn:Eg.
      2: { split; [done|]. intros (pre & id & post & E & Hg & Hu & Hpre).
           destruct pre as [|i' pre]; simplify_eq/=.
           apply Forall_cons in Hpre as [(c' & Hc' & _) _]. congruence. }
      destruct (usable c) eqn:Eu.
      * split.
        -- intros [= <-]. exists [], i, ids. by repeat split.
        -- intros (pre & id & post & E & Hg & Hu & Hpre).
           destruct pre as [|i' pre]; simplify_eq/=; [done|].
           apply Forall_cons in Hpre as [(c' & Hc' & Hu') _]. congruence.
      * rewrite IH. split.
        -- intros (pre & id & post & -> & Hg & Hu & Hpre).
           exists (i :: pre), id, post. repeat split; try done.
           apply Forall_cons. split; [by exists c|done].
        -- intros (pre & id & post & E & Hg & Hu & Hpre).
           destruct pre as [|i' pre]; simplify_eq/=; [congruence|].
           apply Forall_cons in Hpre as [_ Hpre].
           by exists pre, id, post.
  - induction ids as [|i ids IH]; [done|]. cbn [init_conn].
    destruct (get i) as [c|]; [|done].
    destruct (usable c); [|done]. intros H. by destruct (H c).
Qed.

(** X11: [init_crtc] returns the first CRTC of the list that reports a valid
    mode, provided every CRTC before it could be read; otherwise the process
    ends. *)
Theorem init_crtc_first_valid (get : Z → option crtc) (ids : list Z) :
  (∀ crtc,
     init_crtc get ids = Returned crtc ↔
     ∃ pre id post,
       ids = pre ++ id :: post ∧ get id = Some crtc ∧ mode_valid crtc ≠ 0 ∧
       Forall (λ i, ∃ c, get i = Some c ∧ mode_valid c = 0) pre) ∧
  ((∀ crtc, init_crtc get ids ≠ Returned crtc) → init_crtc get ids = Fatal).
Proof.
  split.
  - intros crtc. induction ids as [|i ids IH].
    + split; [done|]. intros (pre & id & post & E & _). by destruct pre.
    + cbn [init_crtc]. destruct (get i) as [c|] eqn:Eg.
      2: { split; [done|]. intros (pre & id & post & E & Hg & Hu & Hpre).
           destruct pre as [|i' pre]; simplify_eq/=.
           apply Forall_cons in Hpre as [(c' & Hc' & _) _]. congruence. }
      destruct (Z.eqb_spec (mode_valid c) 0) as [Ez|Enz].
      * rewrite IH. split.
        -- intros (pre & id & post & -> & Hg & Hu & Hpre).
           exists (i :: pre), id, post. repeat split; try done.
           apply Forall_cons. split; [by exists c|done].
        -- intros (pre & id & post & E & Hg & Hu & Hpre).
           destruct pre as [|i' pre]; simplify_eq/=; try congruence.
           apply Forall_cons in Hpre as [_ Hpre].
           by exists pre, id, post.
      * split.
        -- intros [= <-]. exists [], i, ids. by repeat split.
        -- intros (pre & id & post & E & Hg & Hu & Hpre).
           destruct pre as [|i' pre]; simplify_eq/=; try done.
           apply Forall_cons in Hpre as [(c' & Hc' & Hu') _]. congruence.
  - induction ids as [|i ids IH]; [done|]. cbn [init_crtc].
    destruct (get i) as [c|]; [|done].
    destruct (mode_valid c =? 0); [done|]. intros H. by destruct (H c).
Qed.

Lemma type_is_primary_not_retrying props : type_is_primary props ≠ Retrying.
Proof. induction props as [|p props IH]; [done|]. simpl. by destruct (_ =? _)%string. Qed.

(** X12: [is_primary_plane] answers by the first property called "type":
    the plane is primary exactly when that property has the value
    [DRM_PLANE_TYPE_PRIMARY]. A plane whose properties cannot be read, or
    that has no property called "type", ends the process. *)
Theorem is_primary_plane_first_type (get_props : Z → option (list property))
    (id : Z) :
  (∀ b,
     is_primary_plane get_props id = Returned b ↔
     ∃ pre p post,
       get_props id = Some (pre ++ p :: post) ∧ prop_name p = "type" ∧
       b = (prop_value p =? DRM_PLANE_TYPE_PRIMARY) ∧
       Forall (λ q, prop_name q ≠ "type") pre) ∧
  ((∀ b, is_primary_plane get_props id ≠ Returned b) →
   is_primary_plane get_props id = Fatal).
Proof.
  unfold is_primary_plane. destruct (get_props id) as [props|].
  2: { split; [|done]. intros b. split; [done|]. by intros (? & ? & ? & ? & _). }
  split.
  - intros b. induction props as [|q props IH].
    + split; [done|]. intros (pre & p & post & E & _). by destruct pre.
    + cbn [type_is_primary]. destruct (String.eqb_spec (prop_name q) "type") as [Et|Ent].
      * split.
        -- intros [= <-]. exists [], q, props. by repeat split.
        -- intros (pre & p & post & E & Hn & -> & Hpre).
           destruct pre as [|q' pre]; simplify_eq/=; try done.
           by apply Forall_cons in Hpre as [? _].
      * rewrite IH. split.
        -- intros (pre & p & post & [= ->] & Hn & -> & Hpre).
           exists (q :: pre), p, post. repeat split; try done.
           by apply Forall_cons.
        -- intros (pre & p & post & E & Hn & -> & Hpre).
           destruct pre as [|q' pre]; simplify_eq/=; try done.
           apply Forall_cons in Hpre as [_ Hpre].
           by exists pre, p, post.
  - intros H. pose proof (type_is_primary_not_retrying props).
    destruct (type_is_primary props) as [b| |]; [by destruct (H b)|done|done].
Qed.

(** X13: [init_plane] returns the first plane of the list that is on the
    chosen CRTC and primary. Planes on other CRTCs are skipped without
    looking at their properties. *)
Theorem init_plane_first_primary (get_props : Z → option (list property))
    (crtc_id : Z) (planes : list plane) (pl : plane) :
  init_plane get_props crtc_id planes = Returned pl ↔
  ∃ pre post,
    planes = pre ++ pl :: post ∧ plane_crtc_id pl = crtc_id ∧
    is_primary_plane get_props (plane_id pl) = Returned true ∧
    Forall (λ q, plane_crtc_id q ≠ crtc_id ∨
                 is_primary_plane get_props (plane_id q) = Returned false) pre.
Proof.
  induction planes as [|q planes IH].
  - split; [done|]. intros (pre & post & E & _). by destruct pre.
  - cbn [init_plane]. destruct (Z.eqb_spec (plane_crtc_id q) crtc_id) as [Ec|Enc].
    + destruct (is_primary_plane get_props (plane_id q)) as [[|]| |] eqn:Ep.
      * split.
        -- intros [= <-]. exists [], planes. by repeat split.
        -- intros (pre & post & E & Hc & Hp & Hpre).
           destruct pre as [|q' pre]; simplify_eq/=; try done.
           apply Forall_cons in Hpre as [[?|?] _]; congruence.
      * rewrite IH. split.
        -- intros (pre & post & -> & Hc & Hp & Hpre).
           exists (q :: pre), post. repeat split; try done.
           apply Forall_cons. split; [by right|done].
        -- intros (pre & post & E & Hc & Hp & Hpre).
           destruct pre as [|q' pre]; simplify_eq/=; try congruence.
           apply Forall_cons in Hpre as [_ Hpre]. by exists pre, post.
      * split; [done|]. intros (pre & post & E & Hc & Hp & Hpre).
        destruct pre as [|q' pre]; simplify_eq/=; try congruence.
        apply Forall_cons in Hpre as [[?|?] _]; congruence.
      * split; [done|]. intros (pre & post & E & Hc & Hp & Hpre).
        destruct pre as [|q' pre]; simplify_eq/=; try congruence.
        apply Forall_cons in Hpre as [[?|?] _]; congruence.
    + rewrite IH. split.
      * intros (pre & post & -> & Hc & Hp & Hpre).
        exists (q :: pre), post. repeat split; try done.
        apply Forall_cons. split; [by left|done].
      * intros (pre & post & E & Hc & Hp & Hpre).
        destruct pre as [|q' pre]; simplify_eq/=; try congruence.
        apply Forall_cons in Hpre as [_ Hpre]. by exists pre, post.
Qed.

(** X14: [find_card] opens the first directory entry whose name starts with
    "card", and only that one: entries before it are skipped, and if it
    cannot be opened the process ends without trying a later card. *)
Theorem find_card_first_card (openat : string → option Z) (entries : list string) :
  (∀ fd,
     find_card openat entries = Returned fd ↔
     ∃ pre d_name post,
       entries = pre ++ d_name :: post ∧ is_card d_name = true ∧
       openat d_name = Some fd ∧ Forall (λ e, is_card e = false) pre) ∧
  ((∀ fd, find_card openat entries ≠ Returned fd) → find_card openat entries = Fatal).
Proof.
  split.
  - intros fd. induction entries as [|e entries IH].
    + split; [done|]. intros (pre & d & post & E & _). by destruct pre.
    + cbn [find_card]. destruct (is_card e) eqn:Ee.
      * destruct (openat e) as [fd'|] eqn:Eo.
        -- split.
           ++ intros [= <-]. exists [], e, entries. by repeat split.
           ++ intros (pre & d & post & E & Hc & Ho & Hpre).
              destruct pre as [|e' pre]; simplify_eq/=; try done.
              apply Forall_cons in Hpre as [? _]. congruence.
        -- split; [done|]. intros (pre & d & post & E & Hc & Ho & Hpre).
           destruct pre as [|e' pre]; simplify_eq/=; try done.
           apply Forall_cons in Hpre as [? _]. congruence.
      * rewrite IH. split.
        -- intros (pre & d & post & -> & Hc & Ho & Hpre).
           exists (e :: pre), d, post. repeat split; try done.
           by apply Forall_cons.
        -- intros (pre & d & post & E & Hc & Ho & Hpre).
           destruct pre as [|e' pre]; simplify_eq/=; try congruence.
           apply Forall_cons in Hpre as [_ Hpre]. by exists pre, d, post.
  - induction entries as [|e entries IH]; [done|]. cbn [find_card].
    destruct (is_card e); [|done].
    destruct (openat e) as [fd|]; [|done]. intros H. by destruct (H fd).
Qed.

Example find_card_skips_render_nodes :
  find_card (λ n, if String.eqb n "card1" then Some 5 else None)
            ["."; ".."; "by-path"; "renderD128"; "card1"; "card0"]
    = Returned 5.
Proof. reflexivity. Qed.

(** *** What a successful [show] leaves behind *)

(** The buffer fits the canvas: its mapping and its reported size are as long
    as the canvas buffer. *)
Definition fits (c : canvas) (b : dumb_buffer) : Prop :=
  length (buf_data b) = length (buffer c) ∧ Z.to_nat (buf_size b) = length (buffer c).

Lemma blit_fits c b :
  fits c b → blit b c = DumbBuffer (buf_id b) (buf_stride b) (buf_size b) (buffer c).
Proof.
  intros [Hd Hs]. unfold blit, memcpy. f_equal.
  rewrite Hs, firstn_all. change (Z.to_nat 0) with 0%nat.
  rewrite <- (app_nil_r (buffer c)) at 1. by apply list_inserts_0_l.
Qed.

Lemma blit_keeps_fit c c' b : length (buffer c') = length (buffer c) → fits c b → fits c' (blit b c).
Proof.
  intros Hl Hf. rewrite blit_fits by done. destruct Hf as [Hd Hs].
  split; simpl; congruence.
Qed.

(** The context a returning [show] leaves, for two buffers that fit. *)
Lemma show_returned fuel flips (ctx ctx' : rendering_ctx) (c : canvas) b0 b1 :
  bufs ctx = [b0; b1] → front_buf_idx ctx = 0 ∨ front_buf_idx ctx = 1 →
  fits c b0 → fits c b1 →
  drm_rendering_show fuel flips ctx c = Returned ctx' →
  ctx' = RenderingCtx (card_fd ctx) (crtc_id ctx) (mode_hdisplay ctx) (mode_vdisplay ctx)
           (1 - front_buf_idx ctx)
           (if front_buf_idx ctx =? 0
            then [b0; DumbBuffer (buf_id b1) (buf_stride b1) (buf_size b1) (buffer c)]
            else [DumbBuffer (buf_id b0) (buf_stride b0) (buf_size b0) (buffer c); b1]).
Proof.
  intros Hb Hf H0 H1. unfold drm_rendering_show, back_buf_idx.
  destruct (page_flip_loop fuel flips 0); [|done|done].
  intros [= <-]. rewrite Hb.
  rewrite <- (blit_fits c b0), <- (blit_fits c b1) by done.
  by destruct Hf as [-> | ->].
Qed.

(** X15: when [show] returns, the buffer that has become the front buffer
    holds the bytes of the canvas, and the buffer that was in front, now the
    back buffer, is as it was. The two buffers are as large as the canvas. *)
Theorem show_copies_canvas_to_new_front (fuel : nat) (flips : nat → flip_result)
    (ctx ctx' : rendering_ctx) (c : canvas) (b0 b1 : dumb_buffer) :
  bufs ctx = [b0; b1] → front_buf_idx ctx = 0 ∨ front_buf_idx ctx = 1 →
  fits c b0 → fits c b1 →
  drm_rendering_show fuel flips ctx c = Returned ctx' →
  front_buf_idx ctx' = back_buf_idx ctx ∧
  buf_data <$> bufs ctx' !! Z.to_nat (front_buf_idx ctx') = Some (buffer c) ∧
  bufs ctx' !! Z.to_nat (back_buf_idx ctx') = bufs ctx !! Z.to_nat (front_buf_idx ctx) ∧
  buf_id <$> bufs ctx' = buf_id <$> bufs ctx.
Proof.
  intros Hb Hf H0 H1 Hshow.
  rewrite (show_returned fuel flips ctx ctx' c b0 b1) by done.
  unfold back_buf_idx. rewrite Hb. by destruct Hf as [-> | ->].
Qed.

(** A 1x1 canvas holding one red pixel, and a context whose two buffers have
    its size. *)
Definition canvas_red_pixel : canvas := Canvas 1 1 4 [0; 0; 0xFF; 0xFF].
Definition ctx_1x1 : rendering_ctx :=
  RenderingCtx 3 41 1 1 0 [DumbBuffer 7 4 4 [0; 0; 0; 0]; DumbBuffer 8 4 4 [0; 0; 0; 0]].

Lemma show_copies_canvas_to_new_front_witness :
  ∃ ctx',
    drm_rendering_show 3 busy_twice ctx_1x1 canvas_red_pixel = Returned ctx' ∧
    front_buf_idx ctx' = back_buf_idx ctx_1x1 ∧
    buf_data <$> bufs ctx' !! Z.to_nat (front_buf_idx ctx') = Some (buffer canvas_red_pixel) ∧
    bufs ctx' !! Z.to_nat (back_buf_idx ctx')
      = bufs ctx_1x1 !! Z.to_nat (front_buf_idx ctx_1x1) ∧
    buf_id <$> bufs ctx' = buf_id <$> bufs ctx_1x1.
Proof.
  eexists. split; [reflexivity|].
  eapply (show_copies_canvas_to_new_front 3 busy_twice ctx_1x1 _ canvas_red_pixel);
    first [reflexivity | by left | by split].
Defined.

(** X16: two successive shows use the two buffers in turn: after them the
    front index is what it was, the front buffer holds the second canvas and
    the back buffer the first. *)
Theorem show_twice_alternates (fuel1 fuel2 : nat) (flips1 flips2 : nat → flip_result)
    (ctx ctx1 ctx2 : rendering_ctx) (c1 c2 : canvas) (b0 b1 : dumb_buffer) :
  bufs ctx = [b0; b1] → front_buf_idx ctx = 0 ∨ front_buf_idx ctx = 1 →
  fits c1 b0 → fits c1 b1 → length (buffer c2) = length (buffer c1) →
  drm_rendering_show fuel1 flips1 ctx c1 = Returned ctx1 →
  drm_rendering_show fuel2 flips2 ctx1 c2 = Returned ctx2 →
  front_buf_idx ctx2 = front_buf_idx ctx ∧
  buf_data <$> bufs ctx2 !! Z.to_nat (front_buf_idx ctx2) = Some (buffer c2) ∧
  buf_data <$> bufs ctx2 !! Z.to_nat (back_buf_idx ctx2) = Some (buffer c1).
Proof.
  intros Hb Hf H0 H1 Hl Hs1 Hs2.
  pose proof (show_returned fuel1 flips1 ctx ctx1 c1 b0 b1 Hb Hf H0 H1 Hs1) as E1.
  assert (fits c2 b0 ∧ fits c2 b1) as [H0' H1'].
  { destruct H0, H1. split; split; congruence. }
  pose proof (blit_keeps_fit c1 c2 b0 Hl H0) as Hk0.
  pose proof (blit_keeps_fit c1 c2 b1 Hl H1) as Hk1.
  rewrite blit_fits in Hk0, Hk1 by done.
  destruct Hf as [Ef|Ef]; rewrite Ef in E1; cbn in E1.
  - rewrite (show_returned fuel2 flips2 ctx1 ctx2 c2 b0 _ ltac:(by rewrite E1)
               ltac:(right; by rewrite E1) H0' Hk1 Hs2).
    rewrite E1, Ef. cbn. done.
  - rewrite (show_returned fuel2 flips2 ctx1 ctx2 c2 _ b1 ltac:(by rewrite E1)
               ltac:(left; by rewrite E1) Hk0 H1' Hs2).
    rewrite E1, Ef. cbn. done.
Qed.

Lemma show_twice_alternates_witness :
  ∃ ctx1 ctx2,
    drm_rendering_show 3 busy_twice ctx_1x1 canvas_red_pixel = Returned ctx1 ∧
    drm_rendering_show 1 (λ _, FlipOk) ctx1 canvas_one_pixel = Returned ctx2 ∧
    front_buf_idx ctx2 = front_buf_idx ctx_1x1 ∧
    buf_data <$> bufs ctx2 !! Z.to_nat (front_buf_idx ctx2) = Some (buffer canvas_one_pixel) ∧
    buf_data <$> bufs ctx2 !! Z.to_nat (back_buf_idx ctx2) = Some (buffer canvas_red_pixel).
Proof.
  eexists _, _. split; [reflexivity|]. split; [reflexivity|].
  eapply (show_twice_alternates 3 1 busy_twice (λ _, FlipOk) ctx_1x1 _ _
            canvas_red_pixel canvas_one_pixel);
    first [reflexivity | by left | by split].
Defined.

End Drm.

(** ** threads/ui.c: the pane store and the rotation loop *)

Module Ui.

Import Drm.

Definition MAX_PANES : Z := 1024.

(** [struct pane] *)
Record pane := Pane { pane_name : string; pane_canvas : canvas }.

(** [struct ui_ctx] with its [struct pane_storage] inlined. [panes] holds the
    live entries [panes.panes[0 .. panes.count - 1]], so that [panes.count]
    is its length; [lock] tells whether [panes.lock] is held. [vt] is [None]
    as long as nothing has been assigned to the field: the struct comes from
    [malloc]. *)
Record ui_ctx := UiCtx {
  vt : option rendering_vtable;
  r_ctx : rendering_ctx;
  lock : bool;
  panes : list pane;
  cancellation_fd : Z;
}.

Definition count (ctx : ui_ctx) : Z := Z.of_nat (length (panes ctx)).

Definition set_lock (b : bool) (ctx : ui_ctx) : ui_ctx :=
  UiCtx (vt ctx) (r_ctx ctx) b (panes ctx) (cancellation_fd ctx).

Definition set_panes (ps : list pane) (ctx : ui_ctx) : ui_ctx :=
  UiCtx (vt ctx) (r_ctx ctx) (lock ctx) ps (cancellation_fd ctx).

Definition set_r_ctx (r : rendering_ctx) (ctx : ui_ctx) : ui_ctx :=
  UiCtx (vt ctx) r (lock ctx) (panes ctx) (cancellation_fd ctx).

(** [enum ui_failure] *)
Inductive ui_failure := UI_OK | UI_DUPLICATE | UI_OOM | UI_NO_SUCH_PANE.

(** How a call into the store ends: it returns a value and leaves a state;
    the process is ended ([FATAL_ERR], a failed [assert]); the call never
    returns (a mutex that is never released, a loop that does not exit); or
    it calls through an entry of [ctx->vt] that was never assigned, where C
    defines nothing. *)
Inductive result (A : Type) :=
  | Ret (a : A) (ctx : ui_ctx)
  | Abort
  | Hang
  | Wild.
Arguments Ret {A} a ctx.
Arguments Abort {A}.
Arguments Hang {A}.
Arguments Wild {A}.

(** The store operations thread the context and may abort or hang. *)
Definition M (A : Type) : Type := ui_ctx → result A.

#[local] Instance M_ret : MRet M := λ A a ctx, Ret a ctx.

#[local] Instance M_bind : MBind M := λ A B f m ctx,
  match m ctx with
  | Ret a ctx' => f a ctx'
  | Abort => Abort
  | Hang => Hang
  | Wild => Wild
  end.

Definition get : M ui_ctx := λ ctx, Ret ctx ctx.
Definition put_panes (ps : list pane) : M unit := λ ctx, Ret () (set_panes ps ctx).
Definition abort {A} : M A := λ _, Abort.
Definition hang {A} : M A := λ _, Hang.
Definition wild {A} : M A := λ _, Wild.

(** [pthread_mutex_lock(&ctx->panes.lock)]: a caller that finds the mutex
    held waits for a release. *)
Definition pthread_mutex_lock : M unit := λ ctx,
  if lock ctx then Hang else Ret () (set_lock true ctx).

(** [pthread_mutex_unlock(&ctx->panes.lock)] *)
Definition pthread_mutex_unlock : M unit := λ ctx, Ret () (set_lock false ctx).

(** [strcmp(p->name, name) == 0] *)
Definition named (name : string) (p : pane) : bool := String.eqb (pane_name p) name.

(** The default background of the root pane. *)
Definition bg : color := Color 0x22 0x22 0x88.

(** [ui_ctx_new], given the context [rendering_init] returned: the store
    starts with the pane "root", filled with [bg]. [strdup] and [fresh] are
    the allocator: the copy of a string, if memory allows, and the content of
    a new block. [None] where the C code ends the process (no memory for the
    name) or goes on with a null canvas. The table [v] is the parameter
    [vt]: the function calls through it and assigns [r_ctx], the mutex, the
    first pane and [cancellation_fd], but not [ctx->vt]. *)
Definition ui_ctx_new (v : rendering_vtable) (r : rendering_ctx)
    (strdup : string → option string) (fresh : Z → list Z) : option ui_ctx :=
  match canvas_init v fresh r, strdup "root" with
  | Some cv, Some nm => Some (UiCtx None r false [Pane nm (rendering_fill cv bg)] (-1))
  | _, _ => None
  end.

(** [ui_pane_create]. The two [UI_OOM] returns leave without unlocking. *)
Definition ui_pane_create (strdup : string → option string) (fresh : Z → list Z)
    (name : string) (fill : color) : M ui_failure :=
  pthread_mutex_lock;;
  ctx ← get;
  let idx := count ctx in
  if existsb (named name) (panes ctx) then
    pthread_mutex_unlock;; mret UI_DUPLICATE
  else if negb (idx <? MAX_PANES) then abort (* assert(idx < MAX_PANES) *)
  else
    match strdup name with
    | None => mret UI_OOM
    | Some nm =>
      match vt ctx with
      | None => wild (* ctx->vt.canvas_init *)
      | Some v =>
        match canvas_init v fresh (r_ctx ctx) with
        | None => mret UI_OOM
        | Some cv =>
          put_panes (panes ctx ++ [Pane nm (rendering_fill cv fill)]);;
          pthread_mutex_unlock;;
          mret UI_OK
        end
      end
    end.

(** The scan of [ui_pane_remove]: the entries without the first one called
    [name], later entries shifted down; [None] without a match. *)
Fixpoint remove_first (name : string) (ps : list pane) : option (list pane) :=
  match ps with
  | [] => None
  | p :: ps' =>
    if named name p then Some ps' else (p ::.) <$> remove_first name ps'
  end.

(** [ui_pane_remove] *)
Definition ui_pane_remove (name : string) : M ui_failure :=
  pthread_mutex_lock;;
  ctx ← get;
  match remove_first name (panes ctx) with
  | Some ps => put_panes ps;; pthread_mutex_unlock;; mret UI_OK
  | None => pthread_mutex_unlock;; mret UI_NO_SUCH_PANE
  end.

(** The scan of the two drawing calls:
    [p = NULL; for (i...) { p = &panes[i]; if (strcmp(...) == 0) break; }].
    [p] is the index [p] points at, [None] for [NULL]; it is assigned before
    the comparison, so after a scan without a match it is the last entry. *)
Fixpoint scan (name : string) (ps : list pane) (i : nat) (p : option nat)
    : option nat :=
  match ps with
  | [] => p
  | q :: ps' => if named name q then Some i else scan name ps' (S i) (Some i)
  end.

Definition on_pane_canvas (f : canvas → canvas) (p : pane) : pane :=
  Pane (pane_name p) (f (pane_canvas p)).

(** [ui_pane_draw_rect]. The [UI_NO_SUCH_PANE] return leaves without
    unlocking. *)
Definition ui_pane_draw_rect (name : string) (rc : rect) (c : color)
    : M ui_failure :=
  pthread_mutex_lock;;
  ctx ← get;
  match scan name (panes ctx) 0 None with
  | None => mret UI_NO_SUCH_PANE
  | Some i =>
    put_panes (alter (on_pane_canvas (λ cv, rendering_draw_rect cv rc c)) i (panes ctx));;
    pthread_mutex_unlock;;
    mret UI_OK
  end.

(** [ui_pane_draw_circle]; the call hangs where [rendering_draw_circle] does
    not return. *)
Definition ui_pane_draw_circle (fuel sfuel : nat) (name : string) (ci : circle)
    (c : color) : M ui_failure :=
  pthread_mutex_lock;;
  ctx ← get;
  match scan name (panes ctx) 0 None with
  | None => mret UI_NO_SUCH_PANE
  | Some i =>
    match panes ctx !! i with
    | None => abort (* not reached: [scan] answers an index of the array *)
    | Some p =>
      match rendering_draw_circle fuel sfuel (pane_canvas p) ci c with
      | None => hang
      | Some cv =>
        put_panes (<[i := Pane (pane_name p) cv]> (panes ctx));;
        pthread_mutex_unlock;;
        mret UI_OK
      end
    end
  end.

(** How far the rotation loop got: still looping when the fuel ran out,
    stopped by the cancellation pipe, ended with the process, stuck in a
    call that does not return, or gone through an entry of [ctx->vt] that
    was never assigned. *)
Inductive rotation_end := Rotating | Cancelled | Crashed | Stuck | WildCall.

(** [rotate_panes]: [i] is the [size_t] counter of the [for], [tick] the
    number of the iteration, [cancelled tick] what [poll] finds on the
    cancellation pipe after that iteration, [flips tick] the answers of the
    page flips of that iteration. The result lists the panes handed to
    [rendering_show], in order (their names are what the loop logs); the
    context is the one left behind, with the backend state of the last flip.
    One unit of fuel per iteration. *)
Fixpoint rotate_panes (fuel sfuel : nat) (flips : nat → nat → flip_result)
    (cancelled : nat → bool) (tick : nat) (i : Z) (ctx : ui_ctx)
    : list pane * rotation_end :=
  match fuel with
  | O => ([], Rotating)
  | S fuel' =>
    (* the mutex is taken here and released after the show *)
    if lock ctx then ([], Stuck)
    else if count ctx =? 0 then ([], Crashed) (* i % 0 *)
    else
      let idx := i `mod` count ctx in
      match panes ctx !! Z.to_nat idx with
      | None => ([], Crashed)
      | Some p =>
        match vt ctx with
        | None => ([], WildCall) (* ctx->vt.rendering_show *)
        | Some v =>
          match rendering_show v sfuel (flips tick) (r_ctx ctx) (pane_canvas p) with
          | Returned r' =>
            if cancelled tick then ([p], Cancelled)
            else
              let rest := rotate_panes fuel' sfuel flips cancelled (S tick)
                                       (u64 (i + 1)) (set_r_ctx r' ctx) in
              (p :: rest.1, rest.2)
          | Fatal => ([], Crashed)
          | Retrying => ([], Stuck)
          end
        end
      end
  end.

(** A backend context for a 3x3 mode whose canvases have four bytes per
    pixel, the store [ui_ctx_new] builds on it, and the same store once
    "root" has been removed. *)
Definition r_ctx_3x3 : rendering_ctx :=
  RenderingCtx 3 41 3 3 0
    [DumbBuffer 7 4 36 (replicate 36 0); DumbBuffer 8 4 36 (replicate 36 0)].

Definition zeros (n : Z) : list Z := replicate (Z.to_nat n) 0.

Definition root_canvas : canvas := rendering_fill canvas_3x3 bg.

Definition store_root : ui_ctx :=
  UiCtx None r_ctx_3x3 false [Pane "root" root_canvas] (-1).

Definition store_empty : ui_ctx :=
  UiCtx None r_ctx_3x3 false [] (-1).

(** Evaluate a store operation on a given context. *)
Ltac run_store :=
  unfold ui_pane_create, ui_pane_remove, ui_pane_draw_rect, ui_pane_draw_circle,
    pthread_mutex_lock, pthread_mutex_unlock, get, put_panes, abort, hang, wild,
    mbind, mret, M_bind, M_ret.

Example ui_ctx_new_root :
  ui_ctx_new (supported_backends BACKEND_DRM) r_ctx_3x3 Some zeros = Some store_root.
Proof. reflexivity. Qed.

Example remove_root : ui_pane_remove "root" store_root = Ret UI_OK store_empty.
Proof. reflexivity. Qed.

(** *** Names in the store *)

Lemma existsb_named name (ps : list pane) :
  existsb (named name) ps = true ↔ name ∈ pane_name <$> ps.
Proof.
  rewrite existsb_exists, list_elem_of_fmap. unfold named. split.
  - intros (p & Hin & Heq). apply String.eqb_eq in Heq.
    exists p. split; [done|]. by apply list_elem_of_In.
  - intros (p & -> & Hin). exists p. split; [by apply list_elem_of_In|].
    apply String.eqb_refl.
Qed.

Lemma named_false name (p : pane) (ps : list pane) :
  name ∉ pane_name <$> (p :: ps) → named name p = false ∧ name ∉ pane_name <$> ps.
Proof.
  rewrite fmap_cons, not_elem_of_cons. intros [Hne Hnin]. split; [|done].
  unfold named. apply String.eqb_neq. congruence.
Qed.

(** Without a match the scan ends on the last entry it visited. *)
Lemma scan_no_match name (ps : list pane) : ∀ i p,
  name ∉ pane_name <$> ps →
  scan name ps i p =
    match ps with [] => p | _ => Some (i + length ps - 1)%nat end.
Proof.
  induction ps as [|q ps IH]; intros i p Hnin; [done|].
  apply named_false in Hnin as [Hq Hnin]. cbn [scan]. rewrite Hq.
  rewrite IH by done. destruct ps; simpl; f_equal; lia.
Qed.

Lemma named_once (ps : list pane) name cv :
  NoDup (pane_name <$> ps) → Pane name cv ∈ ps →
  filter (λ p, pane_name p = name) ps = [Pane name cv].
Proof.
  induction ps as [|p ps IH]; intros Hnd Hin; [by apply elem_of_nil in Hin|].
  rewrite fmap_cons in Hnd. apply NoDup_cons in Hnd as [Hp Hnd].
  apply elem_of_cons in Hin as [<-|Hin].
  - rewrite filter_cons_True by done. f_equal.
    destruct (filter _ ps) as [|q qs] eqn:E; [done|].
    assert (q ∈ filter (λ p, pane_name p = name) ps) as Hq
      by (rewrite E; apply list_elem_of_here).
    apply list_elem_of_filter in Hq as [Hname Hq].
    exfalso. apply Hp. simpl. rewrite <- Hname.
    apply list_elem_of_fmap. by exists q.
  - rewrite filter_cons_False; [by apply IH|].
    intros Hname. apply Hp. rewrite Hname.
    apply list_elem_of_fmap. by exists (Pane name cv).
Qed.

(** C6: on a store that holds a pane called [name] (and, as every store
    does, no two panes of one name), [ui_pane_create] with that name returns
    [UI_DUPLICATE] and leaves the store as it was: the same panes, hence the
    same count, exactly one pane called [name], with the canvas it had, and
    the mutex released. *)
Theorem create_duplicate (strdup : string → option string) (fresh : Z → list Z)
    (ctx : ui_ctx) (name : string) (cv : canvas) (fill : color) :
  lock ctx = false →
  NoDup (pane_name <$> panes ctx) →
  Pane name cv ∈ panes ctx →
  ∃ ctx',
    ui_pane_create strdup fresh name fill ctx = Ret UI_DUPLICATE ctx' ∧
    panes ctx' = panes ctx ∧
    count ctx' = count ctx ∧
    filter (λ p, pane_name p = name) (panes ctx') = [Pane name cv] ∧
    lock ctx' = false.
Proof.
  intros Hlock Hnd Hin. exists ctx.
  assert (existsb (named name) (panes ctx) = true) as Hex.
  { apply existsb_named, list_elem_of_fmap. by exists (Pane name cv). }
  split; [|split; [done|split; [done|split; [by apply named_once|done]]]].
  run_store. rewrite Hlock. cbn. rewrite Hex. cbn.
  destruct ctx; simpl in *. by subst.
Qed.

Lemma create_duplicate_witness :
  ∃ ctx',
    ui_pane_create Some zeros "root" red store_root = Ret UI_DUPLICATE ctx' ∧
    panes ctx' = panes store_root ∧
    count ctx' = count store_root ∧
    filter (λ p, pane_name p = "root") (panes ctx') = [Pane "root" root_canvas] ∧
    lock ctx' = false.
Proof.
  apply (create_duplicate Some zeros store_root "root" root_canvas red).
  - reflexivity.
  - simpl. apply NoDup_singleton.
  - simpl. apply list_elem_of_here.
Defined.

(** *** Unique names are an invariant of the store *)

(** [strdup] returns a copy of its argument, when it returns one. *)
Definition copies (strdup : string → option string) : Prop :=
  ∀ s s', strdup s = Some s' → s' = s.

Lemma ui_ctx_new_names v r strdup fresh (ctx : ui_ctx) :
  copies strdup → ui_ctx_new v r strdup fresh = Some ctx →
  pane_name <$> panes ctx = ["root"] ∧ lock ctx = false.
Proof.
  intros Hcp. unfold ui_ctx_new.
  destruct (canvas_init v fresh r); [|done].
  destruct (strdup "root") as [nm|] eqn:E; [|done].
  apply Hcp in E as ->. by intros [= <-].
Qed.




(** *** Drawing on a pane that does not exist *)

(** On a store with at least one pane, a name that matches none makes
    [ui_pane_draw_rect] draw on the last pane and return [UI_OK]. *)
Lemma draw_rect_no_match (ctx : ui_ctx) name rc c (ps : list pane) (q : pane) :
  lock ctx = false → name ∉ pane_name <$> panes ctx → panes ctx = ps ++ [q] →
  ui_pane_draw_rect name rc c ctx =
    Ret UI_OK
      (set_panes (ps ++ [on_pane_canvas (λ cv, rendering_draw_rect cv rc c) q]) ctx).
Proof.
  intros Hlock Hnin Hps. run_store. rewrite Hlock. cbn.
  rewrite scan_no_match by done. rewrite Hps.
  destruct (ps ++ [q]) as [|q0 qs] eqn:E; [by destruct ps|].
  rewrite <- E, length_app. cbn [length].
  replace (0 + (length ps + 1) - 1)%nat with (length ps + 0)%nat by lia.
  rewrite alter_app_r. cbn.
  unfold set_panes, set_lock. cbn. by rewrite Hlock.
Qed.

(** Only the empty store answers [UI_NO_SUCH_PANE], and it keeps the mutex. *)
Lemma draw_rect_empty (ctx : ui_ctx) name rc c :
  lock ctx = false → panes ctx = [] →
  ui_pane_draw_rect name rc c ctx = Ret UI_NO_SUCH_PANE (set_lock true ctx).
Proof.
  intros Hlock Hps. run_store. rewrite Hlock. cbn. rewrite Hps. reflexivity.
Qed.

(** C1, evaluated on the code: the store holds the single pane "root"; drawing
    on the absent pane "x" returns [UI_OK], not [UI_NO_SUCH_PANE], and paints
    the canvas of "root": pixel (0, 0) for the rectangle, pixel (1, 1) for
    the circle, both the background colour before. *)
Theorem draw_on_absent_pane_paints_last_pane :
  ("x" ∉ pane_name <$> panes store_root) ∧
  read_pixel root_canvas 0 0 = painted bg ∧
  read_pixel root_canvas 1 1 = painted bg ∧
  (∃ cv', ui_pane_draw_rect "x" (Rect 0 0 1 1) red store_root
            = Ret UI_OK (set_panes [Pane "root" cv'] store_root) ∧
          read_pixel cv' 0 0 = painted red) ∧
  (∃ cv', ui_pane_draw_circle 3 4 "x" (Circle 1 1 1) red store_root
            = Ret UI_OK (set_panes [Pane "root" cv'] store_root) ∧
          read_pixel cv' 1 1 = painted red).
Proof.
  split; [|split; [by vm_compute|split; [by vm_compute|split]]].
  - simpl. rewrite list_elem_of_singleton. discriminate.
  - eexists. split; [by vm_compute|]. by vm_compute.
  - eexists. split; [by vm_compute|]. by vm_compute.
Qed.

(** *** The mutex on the way out *)

(** [ui_pane_remove] releases the mutex on both returns. *)
Lemma remove_releases_lock (ctx ctx' : ui_ctx) name f :
  ui_pane_remove name ctx = Ret f ctx' → lock ctx' = false.
Proof.
  run_store. destruct (lock ctx); [done|]. cbn.
  destruct (remove_first _ _); cbn; by intros [= _ <-].
Qed.

(** [ui_pane_create] releases it unless it returns [UI_OOM]. *)
Lemma create_lock_on_return strdup fresh (ctx ctx' : ui_ctx) name fill f :
  ui_pane_create strdup fresh name fill ctx = Ret f ctx' →
  lock ctx' = match f with UI_OOM => true | _ => false end.
Proof.
  run_store. destruct (lock ctx); [done|]. cbn.
  destruct (existsb _ _); cbn; [by intros [= <- <-]|].
  destruct (negb _); [done|].
  destruct (strdup name); [|by intros [= <- <-]].
  destruct (vt ctx) as [v|]; [|done].
  destruct (canvas_init _ _ _); cbn; by intros [= <- <-].
Qed.

(** [ui_pane_draw_rect] releases it unless it returns [UI_NO_SUCH_PANE]. *)
Lemma draw_rect_lock_on_return (ctx ctx' : ui_ctx) name rc c f :
  ui_pane_draw_rect name rc c ctx = Ret f ctx' →
  lock ctx' = match f with UI_NO_SUCH_PANE => true | _ => false end.
Proof.
  run_store. destruct (lock ctx); [done|]. cbn.
  destruct (scan _ _ _ _); cbn; by intros [= <- <-].
Qed.

(** C2, evaluated on the code: [ui_pane_create] returning [UI_OOM] (here
    because [strdup] fails) and the drawing calls returning
    [UI_NO_SUCH_PANE] (on the store left by removing "root") return with the
    mutex still held, and the next call into the store never returns. *)
Theorem error_returns_keep_the_mutex :
  (∃ ctx', ui_pane_create (λ _, None) zeros "x" red store_root = Ret UI_OOM ctx' ∧
           lock ctx' = true ∧
           ui_pane_remove "x" ctx' = Hang) ∧
  ui_pane_remove "root" store_root = Ret UI_OK store_empty ∧
  (∃ ctx', ui_pane_draw_rect "x" (Rect 0 0 1 1) red store_empty
             = Ret UI_NO_SUCH_PANE ctx' ∧
           lock ctx' = true ∧
           ui_pane_create Some zeros "x" red ctx' = Hang) ∧
  (∃ ctx', ui_pane_draw_circle 3 4 "x" (Circle 1 1 1) red store_empty
             = Ret UI_NO_SUCH_PANE ctx' ∧
           lock ctx' = true).
Proof.
  split; [|split; [reflexivity|split]].
  - eexists. split; [reflexivity|]. split; reflexivity.
  - eexists. split; [reflexivity|]. split; reflexivity.
  - eexists. split; reflexivity.
Qed.

(** *** The backend table of a context *)

(** [ui_ctx_new] leaves [ctx->vt] unassigned, and the store holds the root
    pane alone. *)
Lemma ui_ctx_new_vt v r strdup fresh (ctx : ui_ctx) :
  ui_ctx_new v r strdup fresh = Some ctx → vt ctx = None ∧ count ctx = 1.
Proof.
  unfold ui_ctx_new. destruct (canvas_init v fresh r); [|done].
  destruct (strdup "root"); [|done]. by intros [= <-].
Qed.

(** Without a table [ui_pane_create] returns only on its error paths, and
    changes nothing but the mutex. *)
Lemma create_unset_vt strdup fresh (ctx ctx' : ui_ctx) name fill f :
  vt ctx = None →
  ui_pane_create strdup fresh name fill ctx = Ret f ctx' →
  f ≠ UI_OK ∧ panes ctx' = panes ctx ∧ vt ctx' = None.
Proof.
  intros Hvt. run_store. destruct (lock ctx); [done|]. cbn.
  destruct (existsb _ _); cbn; [by intros [= <- <-]|].
  destruct (negb _); [done|].
  destruct (strdup name); [|by intros [= <- <-]].
  by rewrite Hvt.
Qed.

(** A new name, with room left and memory for the name, takes the call to
    [ctx->vt.canvas_init]. *)
Lemma create_new_name_unset_vt strdup fresh (ctx : ui_ctx) name fill :
  vt ctx = None → lock ctx = false → name ∉ pane_name <$> panes ctx →
  count ctx < MAX_PANES → is_Some (strdup name) →
  ui_pane_create strdup fresh name fill ctx = Wild.
Proof.
  intros Hvt Hlock Hnin Hroom [nm Hnm].
  assert (existsb (named name) (panes ctx) = false) as Hex.
  { destruct (existsb _ _) eqn:E; [|done]. by apply existsb_named in E. }
  run_store. rewrite Hlock. cbn. rewrite Hex. cbn. unfold count in *. cbn.
  rewrite (proj2 (Z.ltb_lt _ _) Hroom). cbn. by rewrite Hnm, Hvt.
Qed.

Lemma remove_first_length name (ps ps' : list pane) :
  remove_first name ps = Some ps' → (length ps' ≤ length ps)%nat.
Proof.
  revert ps'. induction ps as [|p ps IH]; intros ps' Hrm; [done|].
  cbn [remove_first] in Hrm. destruct (named name p).
  - injection Hrm as <-. simpl. lia.
  - destruct (remove_first name ps) as [qs|]; [|done].
    injection Hrm as <-. specialize (IH qs eq_refl). simpl. lia.
Qed.

(** The other store operations do not assign the table either, and add no
    pane. *)
Lemma remove_vt_count (ctx ctx' : ui_ctx) name f :
  ui_pane_remove name ctx = Ret f ctx' → vt ctx' = vt ctx ∧ count ctx' ≤ count ctx.
Proof.
  run_store. destruct (lock ctx); [done|]. cbn.
  destruct (remove_first name (panes ctx)) as [ps|] eqn:E; cbn;
    intros [= _ <-]; cbn; (split; [done|]); [|done].
  unfold count. cbn. apply remove_first_length in E. lia.
Qed.

Lemma draw_rect_vt_count (ctx ctx' : ui_ctx) name rc c f :
  ui_pane_draw_rect name rc c ctx = Ret f ctx' → vt ctx' = vt ctx ∧ count ctx' = count ctx.
Proof.
  run_store. destruct (lock ctx); [done|]. cbn.
  destruct (scan _ _ _ _); cbn; intros [= _ <-]; cbn; (split; [done|]); [|done].
  unfold count. cbn. by rewrite length_alter.
Qed.

Lemma draw_circle_vt_count (ctx ctx' : ui_ctx) fuel sfuel name ci c f :
  ui_pane_draw_circle fuel sfuel name ci c ctx = Ret f ctx' →
  vt ctx' = vt ctx ∧ count ctx' = count ctx.
Proof.
  run_store. destruct (lock ctx); [done|]. cbn.
  destruct (scan _ _ _ _) as [i|]; cbn; [|by intros [= _ <-]].
  destruct (panes ctx !! i) as [p|]; [|done].
  destruct (rendering_draw_circle _ _ _ _ _); cbn; [|done].
  intros [= _ <-]. cbn. split; [done|]. unfold count. cbn. by rewrite length_insert.
Qed.

(** *** The rotation loop *)

(** Every page flip is accepted at once. *)
Definition flips_ok (tick k : nat) : flip_result := FlipOk.

Example create_x : ui_pane_create Some zeros "x" red store_root = Wild.
Proof. reflexivity. Qed.

Example rotate_root :
  rotate_panes 4 1 flips_ok (λ _, false) 0 0 store_root = ([], WildCall).
Proof. reflexivity. Qed.

(** Without a table the first iteration of the loop, whatever the counter,
    ends in the call to [ctx->vt.rendering_show]: no pane is shown. *)
Lemma rotate_panes_unset fuel sfuel flips cancelled tick i (ctx : ui_ctx) :
  vt ctx = None → lock ctx = false → panes ctx ≠ [] →
  rotate_panes (S fuel) sfuel flips cancelled tick i ctx = ([], WildCall).
Proof.
  intros Hvt Hlock Hne. cbn [rotate_panes]. rewrite Hlock.
  assert (0 < count ctx) as Hcount.
  { unfold count. destruct (panes ctx); [done|]. simpl. lia. }
  rewrite (proj2 (Z.eqb_neq (count ctx) 0)) by lia.
  pose proof (Z.mod_pos_bound i (count ctx) Hcount) as Hidx.
  destruct (panes ctx !! Z.to_nat (i `mod` count ctx)) as [p|] eqn:Ep.
  2: { apply lookup_ge_None in Ep. unfold count in *. lia. }
  by rewrite Hvt.
Qed.

(** The loop itself is a round robin: had the context a table [v] whose
    [show] returns, the loop started at counter value [i] would keep going
    without cancellation, show one pane per iteration, and the pane of
    iteration [k] would be the one at index [(i + k) mod 2^64 mod count]. *)
Lemma rotate_panes_from fuel : ∀ sfuel flips tick i (ctx : ui_ctx) v,
  vt ctx = Some v →
  lock ctx = false → panes ctx ≠ [] → 0 ≤ i < 2 ^ 64 →
  (∀ t r c, ∃ r', rendering_show v sfuel (flips t) r c = Returned r') →
  (rotate_panes fuel sfuel flips (λ _, false) tick i ctx).2 = Rotating ∧
  length (rotate_panes fuel sfuel flips (λ _, false) tick i ctx).1 = fuel ∧
  ∀ k, (k < fuel)%nat →
    (rotate_panes fuel sfuel flips (λ _, false) tick i ctx).1 !! k
      = panes ctx !! Z.to_nat (u64 (i + Z.of_nat k) `mod` count ctx).
Proof.
  induction fuel as [|fuel IH]; intros sfuel flips tick i ctx v Hvt Hlock Hne Hi Hshow.
  - split; [done|]. split; [done|]. intros k Hk. lia.
  - cbn [rotate_panes]. rewrite Hlock.
    assert (0 < count ctx) as Hcount.
    { unfold count. destruct (panes ctx); [done|]. simpl. lia. }
    rewrite (proj2 (Z.eqb_neq (count ctx) 0)) by lia.
    pose proof (Z.mod_pos_bound i (count ctx) Hcount) as Hidx.
    destruct (panes ctx !! Z.to_nat (i `mod` count ctx)) as [p|] eqn:Ep.
    2: { apply lookup_ge_None in Ep. unfold count in *. lia. }
    rewrite Hvt.
    destruct (Hshow tick (r_ctx ctx) (pane_canvas p)) as [r' ->].
    destruct (IH sfuel flips (S tick) (u64 (i + 1)) (set_r_ctx r' ctx) v)
      as (Hend & Hlen & Hnth); try done.
    { unfold u64. apply Z.mod_pos_bound. lia. }
    cbn [fst snd]. split; [done|]. split; [by rewrite length_cons, Hlen|].
    intros [|k] Hk.
    + change (Z.of_nat 0) with 0. rewrite Z.add_0_r.
      rewrite (u64_small i) by exact Hi. by rewrite Ep.
    + cbn [lookup list_lookup]. rewrite Hnth by lia. cbn [panes set_r_ctx].
      unfold count. cbn [panes set_r_ctx]. do 3 f_equal.
      unfold u64. rewrite Zplus_mod_idemp_l. f_equal. lia.
Qed.

(** C9: the loop shows a pane by calling [ctx->vt.rendering_show], and a
    second pane "x" has to be made by [ui_pane_create], which calls
    [ctx->vt.canvas_init]. [ui_ctx_new] uses the table it is given but
    never stores it in the context. On the context it builds, whatever the
    backend, the allocator, the page flips and the cancellation pipe, the
    first iteration of the loop ends in the call through the unassigned
    entry with no pane shown, and so does the creation of "x": the store
    with "root" and "x" never exists and nothing is displayed on any
    tick. *)
Theorem rotation_calls_unset_backend (v : rendering_vtable) (r : rendering_ctx)
    (strdup : string → option string) (fresh : Z → list Z) (ctx : ui_ctx) :
  copies strdup →
  ui_ctx_new v r strdup fresh = Some ctx →
  vt ctx = None ∧ pane_name <$> panes ctx = ["root"] ∧
  (∀ fuel sfuel flips cancelled,
     rotate_panes (S fuel) sfuel flips cancelled 0 0 ctx = ([], WildCall)) ∧
  (∀ fill, is_Some (strdup "x") →
     ui_pane_create strdup fresh "x" fill ctx = Wild).
Proof.
  intros Hcp Hnew.
  destruct (ui_ctx_new_vt _ _ _ _ _ Hnew) as [Hvt Hcount].
  destruct (ui_ctx_new_names _ _ _ _ _ Hcp Hnew) as [Hnames Hlock].
  split; [done|]. split; [done|]. split.
  - intros fuel sfuel flips cancelled. apply rotate_panes_unset; try done.
    intros E. by rewrite E in Hnames.
  - intros fill Hx. apply create_new_name_unset_vt; try done.
    + rewrite Hnames, list_elem_of_singleton. discriminate.
    + rewrite Hcount. reflexivity.
Qed.

Lemma rotation_calls_unset_backend_witness :
  vt store_root = None ∧ pane_name <$> panes store_root = ["root"] ∧
  (∀ fuel sfuel flips cancelled,
     rotate_panes (S fuel) sfuel flips cancelled 0 0 store_root = ([], WildCall)) ∧
  (∀ fill, is_Some (Some "x") →
     ui_pane_create Some zeros "x" fill store_root = Wild).
Proof.
  apply (rotation_calls_unset_backend (supported_backends BACKEND_DRM) r_ctx_3x3
           Some zeros store_root).
  - by intros s s' [= <-].
  - reflexivity.
Defined.

(** *** Further properties of the store *)

Lemma scan_match name (pre post : list pane) (p : pane) : ∀ i p0,
  name ∉ pane_name <$> pre → named name p = true →
  scan name (pre ++ p :: post) i p0 = Some (i + length pre)%nat.
Proof.
  induction pre as [|q pre IH]; intros i p0 Hnin Hp.
  - cbn. rewrite Hp. f_equal. lia.
  - apply named_false in Hnin as [Hq Hnin]. cbn [app scan]. rewrite Hq.
    rewrite IH by done. cbn [length]. f_equal. lia.
Qed.

Lemma remove_first_match name (pre post : list pane) (p : pane) :
  name ∉ pane_name <$> pre → named name p = true →
  remove_first name (pre ++ p :: post) = Some (pre ++ post).
Proof.
  induction pre as [|q pre IH]; intros Hnin Hp.
  - cbn. by rewrite Hp.
  - apply named_false in Hnin as [Hq Hnin]. cbn [app remove_first].
    rewrite Hq, IH by done. reflexivity.
Qed.

Lemma remove_first_no_match name (ps : list pane) :
  name ∉ pane_name <$> ps → remove_first name ps = None.
Proof.
  induction ps as [|q ps IH]; intros Hnin; [done|].
  apply named_false in Hnin as [Hq Hnin]. cbn [remove_first].
  by rewrite Hq, IH.
Qed.

Lemma named_true name (p : pane) : named name p = true ↔ pane_name p = name.
Proof. unfold named. apply String.eqb_eq. Qed.

Lemma set_lock_roundtrip (ctx : ui_ctx) :
  lock ctx = false → set_lock false (set_lock true ctx) = ctx.
Proof. intros H. destruct ctx. simpl in *. by subst. Qed.

(** The contexts of the program: the one [ui_ctx_new] builds, and what the
    store operations make of it when they return. *)
Inductive built : ui_ctx → Prop :=
  | built_new v r strdup fresh ctx :
      ui_ctx_new v r strdup fresh = Some ctx → built ctx
  | built_create strdup fresh name fill ctx f ctx' :
      built ctx → ui_pane_create strdup fresh name fill ctx = Ret f ctx' → built ctx'
  | built_remove name ctx f ctx' :
      built ctx → ui_pane_remove name ctx = Ret f ctx' → built ctx'
  | built_draw_rect name rc c ctx f ctx' :
      built ctx → ui_pane_draw_rect name rc c ctx = Ret f ctx' → built ctx'
  | built_draw_circle fuel sfuel name ci c ctx f ctx' :
      built ctx → ui_pane_draw_circle fuel sfuel name ci c ctx = Ret f ctx' →
      built ctx'.

Lemma built_vt_count (ctx : ui_ctx) : built ctx → vt ctx = None ∧ count ctx ≤ 1.
Proof.
  induction 1 as [v r strdup fresh ctx Hnew
                 |strdup fresh name fill ctx f ctx' _ [IHvt IHc] Hop
                 |name ctx f ctx' _ [IHvt IHc] Hop
                 |name rc c ctx f ctx' _ [IHvt IHc] Hop
                 |fuel sfuel name ci c ctx f ctx' _ [IHvt IHc] Hop].
  - apply ui_ctx_new_vt in Hnew as [-> ->]. done.
  - apply create_unset_vt in Hop as (_ & Hps & ->); [|done].
    split; [done|]. unfold count in *. by rewrite Hps.
  - apply remove_vt_count in Hop as [-> Hc]. split; [done|]. lia.
  - apply draw_rect_vt_count in Hop as [-> ->]. done.
  - apply draw_circle_vt_count in Hop as [-> ->]. done.
Qed.

(** X17: no pane is ever created. On the context [ui_ctx_new] builds and on
    every context the store operations make of it, [ctx->vt] is unassigned
    and the store holds at most the root pane; [ui_pane_create] never
    returns [UI_OK] there and never changes the panes, and for a name the
    store does not hold, with the mutex free and memory for the name, it
    ends in the call through [ctx->vt.canvas_init]. *)
Theorem create_never_adds_a_pane (ctx : ui_ctx) :
  built ctx →
  vt ctx = None ∧ count ctx ≤ 1 ∧
  (∀ strdup fresh name fill f ctx',
     ui_pane_create strdup fresh name fill ctx = Ret f ctx' →
     f ≠ UI_OK ∧ panes ctx' = panes ctx) ∧
  (∀ strdup fresh name fill,
     lock ctx = false → name ∉ pane_name <$> panes ctx → is_Some (strdup name) →
     ui_pane_create strdup fresh name fill ctx = Wild).
Proof.
  intros Hb. destruct (built_vt_count ctx Hb) as [Hvt Hc].
  split; [done|]. split; [done|]. split.
  - intros strdup fresh name fill f ctx' Hop.
    by apply create_unset_vt in Hop as (? & ? & _).
  - intros strdup fresh name fill Hlock Hnin Hnm.
    apply create_new_name_unset_vt; try done. unfold MAX_PANES. lia.
Qed.

Lemma create_never_adds_a_pane_witness :
  vt store_root = None ∧ count store_root ≤ 1 ∧
  (∀ strdup fresh name fill f ctx',
     ui_pane_create strdup fresh name fill store_root = Ret f ctx' →
     f ≠ UI_OK ∧ panes ctx' = panes store_root) ∧
  (∀ strdup fresh name fill,
     lock store_root = false → name ∉ pane_name <$> panes store_root →
     is_Some (strdup name) →
     ui_pane_create strdup fresh name fill store_root = Wild).
Proof.
  apply (create_never_adds_a_pane store_root).
  apply (built_new (supported_backends BACKEND_DRM) r_ctx_3x3 Some zeros).
  reflexivity.
Defined.

(** X18: removing a name the store does not hold returns [UI_NO_SUCH_PANE]
    and leaves the store exactly as it was: same panes, same count, mutex
    released. *)
Theorem remove_missing_is_noop (ctx : ui_ctx) (name : string) :
  lock ctx = false → name ∉ pane_name <$> panes ctx →
  ui_pane_remove name ctx = Ret UI_NO_SUCH_PANE ctx.
Proof.
  intros Hlock Hnin. run_store. rewrite Hlock. cbn.
  rewrite remove_first_no_match by done. cbn.
  f_equal. by apply set_lock_roundtrip.
Qed.

Lemma remove_missing_is_noop_witness :
  ui_pane_remove "x" store_root = Ret UI_NO_SUCH_PANE store_root.
Proof.
  apply (remove_missing_is_noop store_root "x").
  - reflexivity.
  - simpl. rewrite list_elem_of_singleton. discriminate.
Defined.

(** X19: removing a name the store holds returns [UI_OK] and takes out the
    first pane of that name; the panes before and after it keep their order,
    names and canvases, the later ones one slot lower, and the count drops by
    one. With unique names no pane of that name is left. *)
Theorem remove_present_compacts (ctx : ui_ctx) (name : string)
    (pre post : list pane) (p : pane) :
  lock ctx = false →
  panes ctx = pre ++ p :: post → pane_name p = name →
  name ∉ pane_name <$> pre →
  ∃ ctx',
    ui_pane_remove name ctx = Ret UI_OK ctx' ∧
    panes ctx' = pre ++ post ∧
    count ctx' = count ctx - 1 ∧
    lock ctx' = false ∧
    (NoDup (pane_name <$> panes ctx) → name ∉ pane_name <$> panes ctx').
Proof.
  intros Hlock Hps Hp Hnin. eexists. split.
  - run_store. rewrite Hlock. cbn. rewrite Hps.
    rewrite remove_first_match by (try done; by apply named_true).
    cbn. reflexivity.
  - cbn. split; [done|]. split; [|split; [done|]].
    + unfold count. cbn. rewrite Hps, !length_app. cbn. lia.
    + rewrite Hps, !fmap_app, fmap_cons, Hp. intros Hnd.
      apply NoDup_app in Hnd as (_ & Hdisj & Hnd').
      apply NoDup_cons in Hnd' as [Hpost _].
      rewrite elem_of_app. by intros [?|?].
Qed.

(** The store with the panes "a", "b" and "c". *)
Definition store_abc : ui_ctx :=
  UiCtx None r_ctx_3x3 false
        [Pane "a" (rendering_fill canvas_3x3 red);
         Pane "b" (rendering_fill canvas_3x3 bg);
         Pane "c" (rendering_fill canvas_3x3 (Color 0 0xFF 0))] (-1).

Lemma remove_present_compacts_witness :
  ∃ ctx',
    ui_pane_remove "b" store_abc = Ret UI_OK ctx' ∧
    panes ctx' = [Pane "a" (rendering_fill canvas_3x3 red)]
                 ++ [Pane "c" (rendering_fill canvas_3x3 (Color 0 0xFF 0))] ∧
    count ctx' = count store_abc - 1 ∧
    lock ctx' = false ∧
    (NoDup (pane_name <$> panes store_abc) → "b" ∉ pane_name <$> panes ctx').
Proof.
  apply (remove_present_compacts store_abc "b"
           [Pane "a" (rendering_fill canvas_3x3 red)]
           [Pane "c" (rendering_fill canvas_3x3 (Color 0 0xFF 0))]
           (Pane "b" (rendering_fill canvas_3x3 bg))).
  - reflexivity.
  - reflexivity.
  - reflexivity.
  - simpl. rewrite list_elem_of_singleton. discriminate.
Defined.

(** X21: drawing a rectangle on a pane the store holds, when every write
    of the rectangle lies inside the buffer of that pane's canvas, returns
    [UI_OK], applies [rendering_draw_rect] to the canvas of the first pane
    of that name and to no other, and releases the mutex. The canvas keeps
    the length of its buffer. *)
Theorem draw_rect_on_present_pane (ctx : ui_ctx) (name : string) (rc : rect)
    (c : color) (pre post : list pane) (p : pane) :
  lock ctx = false →
  panes ctx = pre ++ p :: post → pane_name p = name →
  name ∉ pane_name <$> pre →
  Forall (write_in_bounds (pane_canvas p)) (rect_points (pane_canvas p) rc) →
  ui_pane_draw_rect name rc c ctx =
    Ret UI_OK
      (set_panes (pre ++ Pane name (rendering_draw_rect (pane_canvas p) rc c) :: post)
                 ctx) ∧
  length (buffer (rendering_draw_rect (pane_canvas p) rc c))
    = length (buffer (pane_canvas p)).
Proof.
  intros Hlock Hps Hp Hnin _. split.
  - run_store. rewrite Hlock. cbn. rewrite Hps.
    rewrite scan_match by (try done; by apply named_true).
    replace (0 + length pre)%nat with (length pre + 0)%nat by lia.
    rewrite alter_app_r. cbn. unfold on_pane_canvas. rewrite Hp.
    unfold set_panes, set_lock. cbn. by rewrite Hlock.
  - unfold rendering_draw_rect.
    by destruct (draw_points_shape (pane_canvas p) c (rect_points (pane_canvas p) rc))
      as (_ & _ & _ & ->).
Qed.

Lemma draw_rect_on_present_pane_witness :
  ui_pane_draw_rect "root" (Rect 0 0 2 1) red store_root =
    Ret UI_OK
      (set_panes
         ([] ++ Pane "root" (rendering_draw_rect
                               (pane_canvas (Pane "root" root_canvas))
                               (Rect 0 0 2 1) red)
          :: [])
         store_root) ∧
  length (buffer (rendering_draw_rect (pane_canvas (Pane "root" root_canvas))
                    (Rect 0 0 2 1) red))
    = length (buffer (pane_canvas (Pane "root" root_canvas))).
Proof.
  apply (draw_rect_on_present_pane store_root "root" (Rect 0 0 2 1) red
           [] [] (Pane "root" root_canvas)).
  - reflexivity.
  - reflexivity.
  - reflexivity.
  - simpl. apply not_elem_of_nil.
  - replace (rect_points (pane_canvas (Pane "root" root_canvas)) (Rect 0 0 2 1))
      with [(0, 0); (1, 0)] by (by vm_compute).
    repeat (apply Forall_cons; split; [by vm_compute|]). apply Forall_nil_2.
Defined.

(** X22: the store never holds more than [MAX_PANES] panes: on a full store
    a new name makes [ui_pane_create] fail its assertion, and whenever the
    call returns the count is still within the bound. *)
Theorem create_respects_capacity (strdup : string → option string)
    (fresh : Z → list Z) (ctx : ui_ctx) (name : string) (fill : color) :
  lock ctx = false → count ctx ≤ MAX_PANES →
  (MAX_PANES ≤ count ctx → name ∉ pane_name <$> panes ctx →
   ui_pane_create strdup fresh name fill ctx = Abort) ∧
  (∀ f ctx', ui_pane_create strdup fresh name fill ctx = Ret f ctx' →
             count ctx' ≤ MAX_PANES).
Proof.
  intros Hlock Hcap. split.
  - intros Hfull Hnin.
    assert (existsb (named name) (panes ctx) = false) as Hex.
    { destruct (existsb _ _) eqn:E; [|done]. by apply existsb_named in E. }
    run_store. rewrite Hlock. cbn. rewrite Hex. cbn. unfold count in *. cbn.
    by rewrite (proj2 (Z.ltb_ge _ _) Hfull).
  - intros f ctx'. run_store. rewrite Hlock. cbn.
    destruct (existsb _ _); cbn; [by intros [= _ <-]|].
    unfold count in *. cbn.
    destruct (Z.ltb_spec (Z.of_nat (length (panes ctx))) MAX_PANES) as [Hlt|Hge]; cbn; [|done].
    destruct (strdup name); [|by intros [= _ <-]].
    destruct (vt ctx) as [v|]; [|done].
    destruct (canvas_init _ _ _); cbn; [|by intros [= _ <-]].
    intros [= _ <-]. cbn. rewrite length_app. cbn. lia.
Qed.

(** A store that holds [MAX_PANES] panes. *)
Definition store_full : ui_ctx :=
  UiCtx None r_ctx_3x3 false
        (replicate 1024 (Pane "p" canvas_1x1)) (-1).

Lemma create_respects_capacity_witness :
  (MAX_PANES ≤ count store_full → "x" ∉ pane_name <$> panes store_full →
   ui_pane_create Some zeros "x" red store_full = Abort) ∧
  (∀ f ctx', ui_pane_create Some zeros "x" red store_full = Ret f ctx' →
             count ctx' ≤ MAX_PANES).
Proof.
  apply (create_respects_capacity Some zeros store_full "x" red).
  - reflexivity.
  - vm_compute. discriminate.
Defined.

Example create_on_full_store : ui_pane_create Some zeros "x" red store_full = Abort.
Proof. vm_compute. reflexivity. Qed.





End Ui.

(** ** commands.c: the command line *)

Module Cmd.

Import Stdlib.Strings.Ascii.
Import Drm Ui.

(** [isspace] in the C locale. *)
Definition isspace (c : ascii) : bool :=
  Ascii.eqb c " " || Ascii.eqb c "009" || Ascii.eqb c "010" ||
  Ascii.eqb c "011" || Ascii.eqb c "012" || Ascii.eqb c "013".
Arguments isspace : simpl never.

(** A C string is the [string] of its characters before the terminating
    NUL. *)

(** [eat_whitespace] *)
Fixpoint eat_whitespace (x : string) : string :=
  match x with
  | EmptyString => EmptyString
  | String c x' => if isspace c then eat_whitespace x' else x
  end.

(** [while ( *p != 0 && !isspace( *p)) p++], followed by [*p = 0] when
    the loop stopped on a whitespace character: the token before [p], and
    what follows that character ([None] when the string ended first). *)
Fixpoint until_space (s : string) : string * option string :=
  match s with
  | EmptyString => (EmptyString, None)
  | String c s' =>
    if isspace c then (EmptyString, Some s')
    else let r := until_space s' in (String c r.1, r.2)
  end.

(** [for (; *target_end != ':' && *target_end != 0; target_end++)]: the
    part before the first colon and the part after it. *)
Fixpoint until_colon (s : string) : string * option string :=
  match s with
  | EmptyString => (EmptyString, None)
  | String c s' =>
    if Ascii.eqb c ":" then (EmptyString, Some s')
    else let r := until_colon s' in (String c r.1, r.2)
  end.

(** [collect_args]: the recursion is on what is left of the input, which gets
    shorter at every call; one unit of fuel per call. ([realloc] is taken to
    succeed; its failure is fatal.) *)
Fixpoint collect_args_rec (fuel : nat) (input : string) : list string :=
  match fuel with
  | O => []
  | S fuel' =>
    match eat_whitespace input with
    | EmptyString => []
    | input' =>
      let r := until_space input' in
      r.1 :: match r.2 with
             | Some rest => collect_args_rec fuel' rest
             | None => []
             end
    end
  end.

Definition collect_args (input : string) : list string :=
  collect_args_rec (S (String.length input)) input.

(** [struct command]. [args] is [argv[0 .. argc-1]]; [parse] leaves both
    fields unset when the line ends right after the action, which is [None]
    here. *)
Record command := Command {
  target_name : string;
  action : string;
  args : option (list string);
}.

(** [struct parse_result] *)
Inductive parse_result :=
  | ParseOk (c : command)
  | ParseErr (err : string).

(** [parse] *)
Definition parse (input : string) : parse_result :=
  match until_colon input with
  | (_, None) => ParseErr "target name must be provided."
  | (EmptyString, Some _) => ParseErr "target name must be provided."
  | (target, Some rest) =>
    match eat_whitespace rest with
    | EmptyString => ParseErr "action required"
    | String a action' =>
      (* action_end starts at &action[1] *)
      let r := until_space action' in
      ParseOk (Command target (String a r.1)
                 (match r.2 with
                  | Some rest' => Some (collect_args rest')
                  | None => None
                  end))
    end
  end.

(** Every character of the string satisfies [P]. *)
Fixpoint all_chars (P : ascii → bool) (s : string) : bool :=
  match s with
  | EmptyString => true
  | String c s' => P c && all_chars P s'
  end.

Definition blank (s : string) : Prop := all_chars isspace s = true.
Definition word (s : string) : Prop :=
  s ≠ EmptyString ∧ all_chars (λ c, negb (isspace c)) s = true.
Definition colon_free (s : string) : Prop :=
  all_chars (λ c, negb (Ascii.eqb c ":")) s = true.

Example parse_create :
  parse ("x: CREATE #ff0000" +:+ String "010" "")
    = ParseOk (Command "x" "CREATE" (Some ["#ff0000"])).
Proof. reflexivity. Qed.

Example parse_no_newline :
  parse "root: REMOVE" = ParseOk (Command "root" "REMOVE" None).
Proof. reflexivity. Qed.

(** *** Scanning *)

Lemma append_cons c (a b : string) : String c a +:+ b = String c (a +:+ b).
Proof. reflexivity. Qed.

Lemma append_nil (b : string) : EmptyString +:+ b = b.
Proof. reflexivity. Qed.

Lemma eat_whitespace_blank w s : blank w → eat_whitespace (w +:+ s) = eat_whitespace s.
Proof.
  unfold blank. induction w as [|c w IH]; [done|].
  rewrite append_cons. cbn [all_chars eat_whitespace].
  intros [Hc Hw]%andb_prop. rewrite Hc. by apply IH.
Qed.

Lemma eat_whitespace_word a s : word a → eat_whitespace (a +:+ s) = a +:+ s.
Proof.
  intros [Hne Ha]. destruct a as [|c a]; [done|].
  rewrite append_cons. cbn [all_chars eat_whitespace] in *.
  apply andb_prop in Ha as [Hc _]. by destruct (isspace c).
Qed.

Lemma until_space_word a c s :
  all_chars (λ c, negb (isspace c)) a = true → isspace c = true →
  until_space (a +:+ String c s) = (a, Some s).
Proof.
  intros Ha Hc. induction a as [|x a IH].
  - rewrite append_nil. cbn [until_space]. by rewrite Hc.
  - rewrite append_cons. cbn [all_chars until_space] in *.
    apply andb_prop in Ha as [Hx Ha].
    destruct (isspace x); [done|]. by rewrite IH.
Qed.

Lemma until_colon_free t s :
  colon_free t → until_colon (t +:+ String ":" s) = (t, Some s).
Proof.
  unfold colon_free. induction t as [|x t IH]; [done|].
  rewrite append_cons. cbn [all_chars until_colon].
  intros [Hx Ht]%andb_prop. destruct (Ascii.eqb x ":"); [done|]. by rewrite IH.
Qed.

Lemma length_append (a b : string) :
  String.length (a +:+ b) = (String.length a + String.length b)%nat.
Proof.
  induction a as [|c a IH]; [done|].
  rewrite append_cons. cbn [String.length]. by rewrite IH.
Qed.

Lemma blank_nonempty w :
  blank w → w ≠ EmptyString →
  ∃ c w', w = String c w' ∧ isspace c = true ∧ blank w'.
Proof.
  intros Hw Hne. destruct w as [|c w]; [done|]. cbn [blank all_chars] in Hw.
  unfold blank in Hw. cbn [all_chars] in Hw.
  apply andb_prop in Hw as [Hc Hw]. by exists c, w.
Qed.

(** Words, each followed by a non-empty run of whitespace. *)
Fixpoint spaced (ws : list (string * string)) : string :=
  match ws with
  | [] => EmptyString
  | (a, w) :: ws' => a +:+ w +:+ spaced ws'
  end.

Definition spaced_ok (ws : list (string * string)) : Prop :=
  Forall (λ aw, word aw.1 ∧ blank aw.2 ∧ aw.2 ≠ EmptyString) ws.

Lemma append_assoc (a b c : string) : (a +:+ b) +:+ c = a +:+ b +:+ c.
Proof.
  induction a as [|x a IH]; [done|]. by rewrite !append_cons, IH.
Qed.

Lemma collect_args_rec_spaced ws : ∀ fuel w,
  spaced_ok ws → blank w →
  (String.length (w +:+ spaced ws) < fuel)%nat →
  collect_args_rec fuel (w +:+ spaced ws) = ws.*1.
Proof.
  induction ws as [|[a w'] ws IH]; intros fuel w Hok Hw Hfuel.
  - destruct fuel as [|fuel]; [lia|]. cbn [collect_args_rec spaced].
    rewrite eat_whitespace_blank by done. reflexivity.
  - apply Forall_cons in Hok as [(Ha & Hw' & Hne) Hok]. cbn [fst snd] in *.
    destruct fuel as [|fuel]; [lia|]. cbn [collect_args_rec spaced] in *.
    rewrite eat_whitespace_blank, eat_whitespace_word by done.
    destruct (blank_nonempty w' Hw' Hne) as (c & w'' & -> & Hc & Hw'').
    rewrite append_cons in *.
    pose proof Ha as [Hane Hach].
    destruct a as [|x a]; [done|]. rewrite (append_cons x a). cbv iota.
    rewrite <- (append_cons x a).
    rewrite until_space_word by done. cbn [fst snd fmap list_fmap].
    f_equal. apply IH; try done.
    rewrite !length_append in *. cbn [String.length] in *.
    rewrite !length_append in *. lia.
Qed.

Lemma parse_line (target w0 act w1 : string) (ws : list (string * string)) :
  target ≠ EmptyString → colon_free target →
  blank w0 → word act → blank w1 → w1 ≠ EmptyString → spaced_ok ws →
  parse (target +:+ ":" +:+ w0 +:+ act +:+ w1 +:+ spaced ws)
    = ParseOk (Command target act (Some ws.*1)).
Proof.
  intros Hne Hcf Hw0 Hact Hw1 Hw1ne Hok. unfold parse.
  change (":" +:+ ?s) with (String ":" s).
  rewrite until_colon_free by done.
  destruct target as [|t0 target]; [done|].
  rewrite eat_whitespace_blank, eat_whitespace_word by done.
  pose proof Hact as [Hactne Hactch].
  destruct act as [|a act]; [done|]. rewrite (append_cons a act).
  destruct (blank_nonempty w1 Hw1 Hw1ne) as (c & w1' & -> & Hc & Hw1').
  rewrite (append_cons c w1').
  cbn [all_chars] in Hactch. apply andb_prop in Hactch as [_ Hactch].
  rewrite until_space_word by done. cbn [fst snd].
  do 3 f_equal. unfold collect_args. apply collect_args_rec_spaced; [done|done|lia].
Qed.


(** X25: a line of the form [<target>:<blanks><action><blanks><args>], with
    a non-empty target free of colons, words for the action and the
    arguments, and at least one whitespace character after each word (the
    newline [fgets] leaves counts), parses into exactly that target, action
    and argument list. The target is taken as it stands, the runs of
    whitespace may have any length. *)
Theorem parse_well_formed_line (target w0 act w1 : string) (ws : list (string * string)) :
  target ≠ EmptyString → colon_free target →
  blank w0 → word act → blank w1 → w1 ≠ EmptyString → spaced_ok ws →
  parse (target +:+ ":" +:+ w0 +:+ act +:+ w1 +:+ spaced ws)
    = ParseOk (Command target act (Some ws.*1)).
Proof. apply parse_line. Qed.

Lemma parse_well_formed_line_witness :
  parse ("root" +:+ ":" +:+ " " +:+ "RECT" +:+ " "
           +:+ spaced [("#ff0000", "  "); ("1", " "); ("2", " "); ("3", " ");
                       ("4", String "010" "")])
    = ParseOk (Command "root" "RECT"
                 (Some [("#ff0000", "  "); ("1", " "); ("2", " "); ("3", " ");
                        ("4", String "010" "")].*1)).
Proof.
  apply (parse_well_formed_line "root" " " "RECT" " ");
    try done.
  repeat (apply Forall_cons; split; [by repeat split|]). apply Forall_nil_2.
Defined.

(** *** What the scans return *)

Lemma until_colon_spec s :
  colon_free (until_colon s).1 ∧
  match (until_colon s).2 with
  | None => s = (until_colon s).1
  | Some rest => s = (until_colon s).1 +:+ String ":" rest
  end.
Proof.
  unfold colon_free. induction s as [|c s [IH1 IH2]]; [done|].
  cbn [until_colon]. destruct (Ascii.eqb_spec c ":") as [->|Hne]; [done|].
  cbn [fst snd all_chars]. split.
  - rewrite IH1. by destruct (Ascii.eqb_spec c ":").
  - destruct (until_colon s).2; rewrite append_cons || idtac; by f_equal.
Qed.

Lemma until_space_spec s :
  all_chars (λ c, negb (isspace c)) (until_space s).1 = true ∧
  match (until_space s).2 with
  | None => s = (until_space s).1
  | Some rest => ∃ c, isspace c = true ∧ s = (until_space s).1 +:+ String c rest
  end.
Proof.
  induction s as [|c s [IH1 IH2]]; [done|].
  cbn [until_space]. destruct (isspace c) eqn:Hc.
  - split; [done|]. by exists c.
  - cbn [fst snd all_chars]. rewrite Hc, IH1. split; [done|].
    destruct (until_space s).2.
    + destruct IH2 as (c' & Hc' & E). exists c'. split; [done|].
      rewrite append_cons. by f_equal.
    + by f_equal.
Qed.

Lemma eat_whitespace_spec s :
  ∃ w, blank w ∧ s = w +:+ eat_whitespace s ∧
       match eat_whitespace s with
       | EmptyString => True
       | String c _ => isspace c = false
       end.
Proof.
  induction s as [|c s (w & Hw & E & Hhead)].
  - by exists EmptyString.
  - cbn [eat_whitespace]. destruct (isspace c) eqn:Hc.
    + exists (String c w). split; [|split; [|done]].
      * unfold blank in *. cbn [all_chars]. by rewrite Hc, Hw.
      * rewrite append_cons. by f_equal.
    + exists EmptyString. by repeat split.
Qed.

Lemma collect_args_rec_words fuel : ∀ s, Forall word (collect_args_rec fuel s).
Proof.
  induction fuel as [|fuel IH]; intros s; [by apply Forall_nil_2|].
  cbn [collect_args_rec].
  destruct (eat_whitespace_spec s) as (w & _ & _ & Hhead).
  destruct (eat_whitespace s) as [|c s']; [by apply Forall_nil_2|].
  apply Forall_cons. split.
  - cbn [until_space]. rewrite Hhead. cbn [fst]. split; [done|].
    cbn [all_chars]. rewrite Hhead. cbn [negb andb].
    apply until_space_spec.
  - destruct (until_space (String c s')).2; [apply IH|by apply Forall_nil_2].
Qed.

Lemma until_colon_none s : colon_free s → until_colon s = (s, None).
Proof.
  unfold colon_free. induction s as [|c s IH]; [done|].
  cbn [all_chars until_colon]. intros [Hc Hs]%andb_prop.
  destruct (Ascii.eqb c ":"); [done|]. by rewrite IH.
Qed.

Lemma eat_whitespace_empty s : eat_whitespace s = EmptyString ↔ blank s.
Proof.
  unfold blank. induction s as [|c s IH]; [done|].
  cbn [eat_whitespace all_chars]. destruct (isspace c); [done|].
  split; discriminate.
Qed.

(** What each outcome of [parse] says about the line. *)
Lemma parse_cases (input : string) :
  (parse input = ParseErr "target name must be provided." →
     colon_free input ∨ ∃ rest, input = String ":" rest) ∧
  (parse input = ParseErr "action required" →
     ∃ target w, input = target +:+ String ":" w ∧
                 target ≠ EmptyString ∧ colon_free target ∧ blank w) ∧
  (∀ c, parse input = ParseOk c →
     target_name c ≠ EmptyString ∧ colon_free (target_name c) ∧
     (∃ rest, input = target_name c +:+ String ":" rest) ∧
     word (action c) ∧
     ∀ l, args c = Some l → Forall word l).
Proof.
  unfold parse. destruct (until_colon_spec input) as [Hcf Hin].
  destruct (until_colon input) as [target [rest|]]; cbn [fst snd] in *.
  2: { subst input. split; [by left|]. by destruct target. }
  destruct target as [|t0 target].
  { split; [right; by exists rest|]. by split. }
  destruct (eat_whitespace_spec rest) as (w & Hw & Erest & Hhead).
  destruct (eat_whitespace rest) as [|a action'] eqn:Eeat.
  { split; [done|]. split; [|done]. intros _.
    exists (String t0 target), rest. repeat split; try done.
    by apply eat_whitespace_empty. }
  split; [done|]. split; [done|]. intros c [= <-]. cbn [target_name action args].
  split; [done|]. split; [done|]. split; [by exists rest|].
  destruct (until_space_spec action') as [Hact _].
  split.
  - split; [done|]. cbn [all_chars]. by rewrite Hhead, Hact.
  - intros l. destruct (until_space action').2; [|done].
    intros [= <-]. apply collect_args_rec_words.
Qed.

(** X26: [parse] rejects a line in two cases only: every line is either
    accepted or answered with one of two messages. It asks for a target
    name exactly when the line has no colon or starts with one, and for an
    action exactly when everything after the first colon is whitespace. Any
    other line is accepted, and then the target is the non-empty text before
    the first colon, the action a word, and every argument a word: no
    argument is empty or holds whitespace. *)
Theorem parse_outcomes (input : string) :
  ((∃ c, parse input = ParseOk c) ∨
   parse input = ParseErr "target name must be provided." ∨
   parse input = ParseErr "action required") ∧
  (¬ (colon_free input ∨ ∃ rest, input = String ":" rest) →
   ¬ (∃ target w, input = target +:+ String ":" w ∧
                  target ≠ EmptyString ∧ colon_free target ∧ blank w) →
   ∃ c, parse input = ParseOk c) ∧
  (parse input = ParseErr "target name must be provided." ↔
     colon_free input ∨ ∃ rest, input = String ":" rest) ∧
  (parse input = ParseErr "action required" ↔
     ∃ target w, input = target +:+ String ":" w ∧
                 target ≠ EmptyString ∧ colon_free target ∧ blank w) ∧
  (∀ c, parse input = ParseOk c →
     target_name c ≠ EmptyString ∧ colon_free (target_name c) ∧
     (∃ rest, input = target_name c +:+ String ":" rest) ∧
     word (action c) ∧
     ∀ l, args c = Some l → Forall word l).
Proof.
  destruct (parse_cases input) as (H1 & H2 & H3).
  assert ((∃ c, parse input = ParseOk c) ∨
          parse input = ParseErr "target name must be provided." ∨
          parse input = ParseErr "action required") as Hall.
  { unfold parse. destruct (until_colon input) as [target [rest|]].
    - destruct target; [by right; left|].
      destruct (eat_whitespace rest); [by right; right|]. left. by eexists.
    - right. left. by destruct target. }
  split; [done|]. split.
  { intros Hn1 Hn2. destruct Hall as [Hok|[He|He]]; [done| |].
    - destruct Hn1. by apply H1.
    - destruct Hn2. by apply H2. }
  split; [|split; [|done]].
  - split; [done|]. unfold parse. intros [Hcf|[rest ->]].
    + rewrite until_colon_none by done. by destruct input.
    + cbn [until_colon]. by rewrite Ascii.eqb_refl.
  - split; [done|]. unfold parse. intros (target & w & -> & Hne & Hcf & Hw).
    rewrite until_colon_free by done.
    destruct target as [|t0 target]; [done|].
    apply eat_whitespace_empty in Hw. by rewrite Hw.
Qed.

(** *** parse_color *)

(** The value of a hexadecimal digit, in either case. *)
Definition hex_value (c : ascii) : option Z :=
  let n := Z.of_N (N_of_ascii c) in
  if (48 <=? n) && (n <=? 57) then Some (n - 48)
  else if (97 <=? n) && (n <=? 102) then Some (n - 87)
  else if (65 <=? n) && (n <=? 70) then Some (n - 55)
  else None.
Arguments hex_value : simpl never.

(** The longest run of hexadecimal digits at the start of [s], read as a
    number on top of [acc]. *)
Fixpoint hex_digits (acc : Z) (s : string) : Z :=
  match s with
  | EmptyString => acc
  | String c s' =>
    match hex_value c with
    | Some d => hex_digits (acc * 16 + d) s'
    | None => acc
    end
  end.

Definition LONG_MAX : Z := 2 ^ 63 - 1.
Definition LONG_MIN : Z := - 2 ^ 63.

(** [strtol(s, NULL, 16)] of the C library, as ISO C describes it: leading
    whitespace, an optional sign, an optional [0x] or [0X], then the longest
    run of hexadecimal digits (none gives 0); a value outside [long] is
    clamped and reported through [errno], the second component. Nothing
    else sets [errno]: that is glibc, whose headers the program includes;
    ISO C names no other error, POSIX lets a library report a string
    without digits as well. *)
Definition strtol16 (s : string) : Z * bool :=
  let s1 := eat_whitespace s in
  let signed :=
    match s1 with
    | String c s' =>
      if Ascii.eqb c "-" then (true, s')
      else if Ascii.eqb c "+" then (false, s')
      else (false, s1)
    | EmptyString => (false, s1)
    end in
  let s2 :=
    match signed.2 with
    | String c (String x s') =>
      if Ascii.eqb c "0" && (Ascii.eqb x "x" || Ascii.eqb x "X") then s'
      else signed.2
    | _ => signed.2
    end in
  let v := hex_digits 0 s2 in
  let v := if signed.1 then - v else v in
  if LONG_MAX <? v then (LONG_MAX, true)
  else if v <? LONG_MIN then (LONG_MIN, true)
  else (v, false).

(** [parse_color]: [None] for [false]. The three assignments convert to
    [uint8_t]. *)
Definition parse_color (s : string) : option color :=
  match s with
  | String c rest =>
    if negb (Ascii.eqb c "#") then None
    else if negb (String.length s =? 7)%nat then None
    else
      let r := strtol16 rest in
      if r.2 then None
      else
        let result := r.1 in
        Some (Color (u8 (Z.shiftr result 16))
                    (u8 (Z.land (Z.shiftr result 8) 0xff))
                    (u8 (Z.land result 0xff)))
  | EmptyString => None
  end.

Example parse_color_red : parse_color "#ff0000" = Some (Color 255 0 0).
Proof. reflexivity. Qed.

Example parse_color_mixed_case : parse_color "#1aB2c3" = Some (Color 0x1a 0xb2 0xc3).
Proof. reflexivity. Qed.

Example parse_color_short : parse_color "#ff000" = None.
Proof. reflexivity. Qed.

Example parse_color_no_hash : parse_color "ff00000" = None.
Proof. reflexivity. Qed.

(** Six characters that are no digits at all still make a colour. *)
Example parse_color_not_hex : parse_color "#zzzzzz" = Some (Color 0 0 0).
Proof. reflexivity. Qed.

Lemma hex_value_range c d : hex_value c = Some d → 0 ≤ d < 16.
Proof.
  unfold hex_value. set (n := Z.of_N (N_of_ascii c)).
  repeat case_match; intros [= <-]; lia.
Qed.

Lemma hex_digits_bounds s : ∀ acc,
  0 ≤ acc → acc ≤ hex_digits acc s < (acc + 1) * 16 ^ Z.of_nat (String.length s).
Proof.
  induction s as [|c s IH]; intros acc Hacc.
  - cbn. lia.
  - cbn [hex_digits String.length]. rewrite Nat2Z.inj_succ, Z.pow_succ_r by lia.
    assert (0 < 16 ^ Z.of_nat (String.length s)) by (apply Z.pow_pos_nonneg; lia).
    destruct (hex_value c) as [d|] eqn:Ed.
    + apply hex_value_range in Ed.
      specialize (IH (acc * 16 + d) ltac:(lia)). nia.
    + nia.
Qed.

Lemma eat_whitespace_length s :
  (String.length (eat_whitespace s) ≤ String.length s)%nat.
Proof.
  induction s as [|c s IH]; [done|]. cbn [eat_whitespace].
  destruct (isspace c); cbn [String.length]; lia.
Qed.

(** A string of at most six characters never overflows a [long]. *)
Lemma strtol16_short s :
  (String.length s ≤ 6)%nat →
  (strtol16 s).2 = false ∧ - 16 ^ 6 < (strtol16 s).1 < 16 ^ 6.
Proof.
  intros Hlen. unfold strtol16.
  pose proof (eat_whitespace_length s) as Hl1.
  set (s1 := eat_whitespace s) in *.
  set (signed := match s1 with String c s' => _ | EmptyString => _ end).
  assert (String.length signed.2 ≤ String.length s1)%nat as Hl2.
  { subst signed. destruct s1 as [|c s1]; [done|].
    repeat case_match; cbn [snd String.length]; lia. }
  set (s2 := match signed.2 with String c (String x s') => _ | _ => _ end).
  assert (String.length s2 ≤ String.length signed.2)%nat as Hl3.
  { subst s2. destruct signed.2 as [|c [|c' t]]; [done|done|].
    case_match; cbn [String.length]; lia. }
  pose proof (hex_digits_bounds s2 0 ltac:(lia)) as Hb.
  assert (16 ^ Z.of_nat (String.length s2) ≤ 16 ^ 6) as Hpow
    by (apply Z.pow_le_mono_r; lia).
  set (v := hex_digits 0 s2) in *.
  unfold LONG_MAX, LONG_MIN.
  change (16 ^ 6) with 16777216 in *. change (2 ^ 63) with 9223372036854775808.
  set (w := if signed.1 then - v else v).
  assert (- 16777216 < w < 16777216) as Hw by (subst w; destruct signed.1; lia).
  clearbody w.
  repeat match goal with
         | |- context [?a <? ?b] => destruct (Z.ltb_spec a b); [lia|]
         end.
  cbn [fst snd]. split; [done|lia].
Qed.

(** X27: [parse_color] accepts exactly the strings of seven characters
    that start with '#'. The six characters after it are not checked: what
    [strtol] cannot read counts as 0. *)
Theorem parse_color_accepts (s : string) :
  is_Some (parse_color s) ↔
  ∃ rest, s = String "#" rest ∧ String.length rest = 6%nat.
Proof.
  unfold parse_color. split.
  - intros [col Hcol]. destruct s as [|c rest]; [done|].
    destruct (Ascii.eqb_spec c "#") as [->|Hne]; [|done].
    exists rest. split; [done|].
    destruct (Nat.eqb_spec (String.length (String "#" rest)) 7) as [E|E]; [|done].
    cbn [String.length] in E. lia.
  - intros (rest & -> & Hlen). cbn [String.length]. rewrite Hlen.
    destruct (strtol16_short rest ltac:(lia)) as [-> _]. by eexists.
Qed.

Lemma parse_color_accepts_example : is_Some (parse_color "#12345z").
Proof. by eexists. Qed.

(** A hexadecimal digit is no whitespace, no sign and no [x]. *)
Lemma hex_value_plain c d :
  hex_value c = Some d →
  isspace c = false ∧ Ascii.eqb c "-" = false ∧ Ascii.eqb c "+" = false ∧
  Ascii.eqb c "x" = false ∧ Ascii.eqb c "X" = false.
Proof.
  destruct c as [[] [] [] [] [] [] [] []]; intros H; vm_compute in H;
    try discriminate; by vm_compute.
Qed.

Lemma parse_color_digits (c1 c2 c3 c4 c5 c6 : ascii) (d1 d2 d3 d4 d5 d6 : Z) :
  hex_value c1 = Some d1 → hex_value c2 = Some d2 → hex_value c3 = Some d3 →
  hex_value c4 = Some d4 → hex_value c5 = Some d5 → hex_value c6 = Some d6 →
  parse_color
    (String "#" (String c1 (String c2 (String c3 (String c4 (String c5
       (String c6 EmptyString)))))))
    = Some (Color (16 * d1 + d2) (16 * d3 + d4) (16 * d5 + d6)).
Proof.
  intros H1 H2 H3 H4 H5 H6.
  destruct (hex_value_plain c1 d1 H1) as (Hs1 & Hm1 & Hp1 & _).
  destruct (hex_value_plain c2 d2 H2) as (_ & _ & _ & Hx2 & HX2).
  pose proof (hex_value_range c1 d1 H1). pose proof (hex_value_range c2 d2 H2).
  pose proof (hex_value_range c3 d3 H3). pose proof (hex_value_range c4 d4 H4).
  pose proof (hex_value_range c5 d5 H5). pose proof (hex_value_range c6 d6 H6).
  unfold parse_color. cbn [String.length Ascii.eqb Bool.eqb negb Nat.eqb].
  unfold strtol16. cbn [eat_whitespace]. rewrite Hs1, Hm1, Hp1. cbn [fst snd].
  rewrite Hx2, HX2, andb_false_r.
  cbn [hex_digits]. rewrite H1, H2, H3, H4, H5, H6.
  set (v := ((((((0 * 16 + d1) * 16 + d2) * 16 + d3) * 16 + d4) * 16 + d5) * 16 + d6)).
  assert (v = (16 * d1 + d2) * 65536 + (16 * d3 + d4) * 256 + (16 * d5 + d6)) as Ev
    by (subst v; lia).
  assert (0 ≤ v < 16777216) as Hv by lia.
  unfold LONG_MAX, LONG_MIN. change (2 ^ 63) with 9223372036854775808.
  repeat match goal with
         | |- context [?a <? ?b] => destruct (Z.ltb_spec a b); [lia|]
         end.
  cbn [fst snd]. do 2 f_equal.
  - rewrite Z.shiftr_div_pow2 by lia. unfold u8.
    change (2 ^ 16) with 65536. change (2 ^ 8) with 256.
    replace (v `div` 65536) with (16 * d1 + d2)
      by (apply (Z.div_unique _ _ _ ((16 * d3 + d4) * 256 + (16 * d5 + d6))); lia).
    apply Z.mod_small. lia.
  - change 255 with (Z.ones 8). rewrite Z.land_ones, Z.shiftr_div_pow2 by lia.
    unfold u8. change (2 ^ 8) with 256. rewrite Z.mod_mod by lia.
    replace (v `div` 256) with ((16 * d1 + d2) * 256 + (16 * d3 + d4))
      by (apply (Z.div_unique _ _ _ (16 * d5 + d6)); lia).
    symmetry. apply (Z.mod_unique _ _ (16 * d1 + d2)); lia.
  - change 255 with (Z.ones 8). rewrite Z.land_ones by lia.
    unfold u8. change (2 ^ 8) with 256. rewrite Z.mod_mod by lia.
    symmetry. apply (Z.mod_unique _ _ ((16 * d1 + d2) * 256 + (16 * d3 + d4))); lia.
Qed.


(** X28: on '#' followed by six hexadecimal digits, in either case,
    [parse_color] returns the colour whose red, green and blue bytes are the
    three pairs of digits, in that order. *)
Theorem parse_color_hex (c1 c2 c3 c4 c5 c6 : ascii) (d1 d2 d3 d4 d5 d6 : Z) :
  hex_value c1 = Some d1 → hex_value c2 = Some d2 → hex_value c3 = Some d3 →
  hex_value c4 = Some d4 → hex_value c5 = Some d5 → hex_value c6 = Some d6 →
  parse_color
    (String "#" (String c1 (String c2 (String c3 (String c4 (String c5
       (String c6 EmptyString)))))))
    = Some (Color (16 * d1 + d2) (16 * d3 + d4) (16 * d5 + d6)).
Proof. apply parse_color_digits. Qed.

Lemma parse_color_hex_witness :
  parse_color
    (String "#" (String "1" (String "a" (String "B" (String "2" (String "c"
       (String "3" EmptyString)))))))
    = Some (Color (16 * 1 + 10) (16 * 11 + 2) (16 * 12 + 3)).
Proof.
  apply (parse_color_hex "1" "a" "B" "2" "c" "3" 1 10 11 2 12 3); reflexivity.
Defined.

(** *** Running a command *)

(** What a command writes: text on the client's stream (stdout) or on the
    debug log (stderr), in order. *)
Inductive stream := Stdout | Stderr.

Definition nl : string := String "010" EmptyString.

(** [ui_failure_str] of [ui.c] *)
Definition ui_failure_str (f : ui_failure) : string :=
  match f with
  | UI_OK => "no failure"
  | UI_DUPLICATE => "duplicate pane"
  | UI_OOM => "oom"
  | UI_NO_SUCH_PANE => "targeted pane doesn't exist"
  end.

(** What a hook does: its output and how the call into the store ended. *)
Definition effect : Type := list (stream * string) * result unit.

(** [act_t]: the target, [argv[0 .. argc-1]], the context. Each of the four
    hooks of the table starts by testing [argc]. *)
Definition act_t : Type := string → list string → ui_ctx → effect.

Section Actions.

(** The allocator [ui_pane_create] runs on, and the hooks for RECT and
    CIRCLE, whose number parsing is not modelled. *)
Context (strdup : string → option string) (fresh : Z → list Z).
Context (act_rect act_circle : act_t).

(** [act_create] *)
Definition act_create : act_t := λ target argv ctx,
  match argv with
  | [a] =>
    match parse_color a with
    | None => ([(Stdout, "failure: given color is not valid." +:+ nl)], Ret () ctx)
    | Some fill =>
      match ui_pane_create strdup fresh target fill ctx with
      | Ret r ctx' =>
        (match r with
         | UI_OK => []
         | _ => [(Stderr, "act_create: failed: " +:+ ui_failure_str r +:+ nl)]
         end, Ret () ctx')
      | Abort => ([], Abort)
      | Hang => ([], Hang)
      | Wild => ([], Wild)
      end
    end
  | _ => ([(Stdout, "failure: CREATE requires exactly one argument" +:+ nl)], Ret () ctx)
  end.

(** [act_remove] *)
Definition act_remove : act_t := λ target argv ctx,
  match argv with
  | [] =>
    match ui_pane_remove target ctx with
    | Ret r ctx' =>
      (match r with
       | UI_OK => []
       | _ => [(Stderr, "act_remove: failed: " +:+ ui_failure_str r)]
       end, Ret () ctx')
    | Abort => ([], Abort)
    | Hang => ([], Hang)
    | Wild => ([], Wild)
    end
  | _ => ([(Stdout, "failure: REMOVE requires no arguments." +:+ nl)], Ret () ctx)
  end.

(** The table [actions]. *)
Definition actions : list (string * act_t) :=
  [("CREATE", act_create); ("REMOVE", act_remove);
   ("RECT", act_rect); ("CIRCLE", act_circle)].

(** The loop of [run] over the table: the hook of the first entry whose name
    is the action runs; [None] when no entry matches. *)
Fixpoint dispatch (table : list (string * act_t)) (act : string) : option act_t :=
  match table with
  | [] => None
  | (name, hook) :: table' =>
    if String.eqb act name then Some hook else dispatch table' act
  end.

(** [snprintf(err_buf, 512, "no such action found: %s", c->action)] keeps at
    most 511 characters. *)
Definition no_such_action (act : string) : string :=
  String.substring 0 511 ("no such action found: " +:+ act).

(** [run]: the error message, if any, and what the hook did. The loop
    compares the action with the names of the table and reads nothing else
    of the command; when an entry matches, its hook is called with
    [c->argc] and [c->argv]. [args] is what [parse] set: with [None] the
    hook is handed two fields nothing was assigned to, and [run] answers
    [None]. *)
Definition run (target act : string) (args : option (list string)) (ctx : ui_ctx)
    : option (option string * effect) :=
  match dispatch actions act with
  | Some hook =>
    match args with
    | Some argv => Some (None, hook target argv ctx)
    | None => None
    end
  | None => Some (Some (no_such_action act), ([], Ret () ctx))
  end.

(** The body of the loop of [cmd_inner] for one line read by [fgets]: parse,
    run, report. [None] where [run] is. *)
Definition handle_line (line : string) (ctx : ui_ctx) : option effect :=
  match parse line with
  | ParseErr err => Some ([(Stdout, "parsing failed: " +:+ err +:+ nl)], Ret () ctx)
  | ParseOk c =>
    match run (target_name c) (action c) (args c) ctx with
    | None => None
    | Some (None, eff) => Some eff
    | Some (Some err, (out, r)) =>
      Some (out ++ [(Stdout, err +:+ nl); (Stderr, "cmd: run: " +:+ err +:+ nl)], r)
    end
  end.

End Actions.

(** Hooks that do nothing, for the examples. *)
Definition act_nothing : act_t := λ _ _ ctx, ([], Ret () ctx).

Example handle_create :
  handle_line Some zeros act_nothing act_nothing ("x: CREATE #ff0000" +:+ nl) store_root
    = Some ([], Wild).
Proof. vm_compute. reflexivity. Qed.

Example handle_create_twice :
  handle_line Some zeros act_nothing act_nothing ("root: CREATE #ff0000" +:+ nl) store_root
    = Some ([(Stderr, "act_create: failed: duplicate pane" +:+ nl)], Ret () store_root).
Proof. vm_compute. reflexivity. Qed.

Example handle_unknown :
  handle_line Some zeros act_nothing act_nothing ("root: FLY" +:+ nl) store_root
    = Some ([(Stdout, "no such action found: FLY" +:+ nl);
             (Stderr, "cmd: run: no such action found: FLY" +:+ nl)],
            Ret () store_root).
Proof. vm_compute. reflexivity. Qed.

Example handle_unknown_bare :
  handle_line Some zeros act_nothing act_nothing "root: FLY" store_root
    = Some ([(Stdout, "no such action found: FLY" +:+ nl);
             (Stderr, "cmd: run: no such action found: FLY" +:+ nl)],
            Ret () store_root).
Proof. vm_compute. reflexivity. Qed.

Example handle_remove_bare :
  handle_line Some zeros act_nothing act_nothing "root: REMOVE" store_root = None.
Proof. vm_compute. reflexivity. Qed.

Example handle_remove :
  handle_line Some zeros act_nothing act_nothing ("root: REMOVE" +:+ nl) store_root
    = Some ([], Ret () store_empty).
Proof. vm_compute. reflexivity. Qed.

Lemma until_space_none a :
  all_chars (λ c, negb (isspace c)) a = true → until_space a = (a, None).
Proof.
  induction a as [|x a IH]; [done|]. cbn [all_chars until_space].
  intros [Hx Ha]%andb_prop. destruct (isspace x); [done|]. by rewrite IH.
Qed.

Lemma append_empty (s : string) : s +:+ EmptyString = s.
Proof. induction s as [|c s IH]; [done|]. by rewrite append_cons, IH. Qed.

(** A line that ends right after the action. *)
Lemma parse_bare_action (target w act : string) :
  target ≠ EmptyString → colon_free target → blank w → word act →
  parse (target +:+ ":" +:+ w +:+ act) = ParseOk (Command target act None).
Proof.
  intros Hne Hcf Hw [Hactne Hact]. unfold parse.
  change (":" +:+ ?s) with (String ":" s).
  rewrite until_colon_free by done.
  destruct target as [|t0 target]; [done|].
  rewrite <- (append_empty act) at 1.
  rewrite eat_whitespace_blank, eat_whitespace_word by done.
  rewrite append_empty.
  destruct act as [|a act]; [done|].
  cbn [all_chars] in Hact. apply andb_prop in Hact as [_ Hact].
  by rewrite until_space_none.
Qed.

(** [parse] leaves the argument fields unset only on such a line. *)
Lemma parse_unset_args (input : string) (c : command) :
  parse input = ParseOk c → args c = None →
  ∃ w, blank w ∧ input = target_name c +:+ String ":" (w +:+ action c).
Proof.
  unfold parse. destruct (until_colon_spec input) as [_ Hin].
  destruct (until_colon input) as [target [rest|]]; cbn [fst snd] in *;
    [|by destruct target].
  destruct target as [|t0 target]; [done|].
  destruct (eat_whitespace_spec rest) as (w & Hw & Erest & _).
  destruct (eat_whitespace rest) as [|a action']; [done|].
  destruct (until_space_spec action') as [_ Hact].
  intros [= <-]. cbn [target_name action args].
  destruct (until_space action').2; [done|]. intros _.
  exists w. split; [done|]. by rewrite Hin, Erest, <- Hact.
Qed.

(** The names of the table. *)
Definition action_names : list string := ["CREATE"; "REMOVE"; "RECT"; "CIRCLE"].

Lemma dispatch_actions strdup fresh act_rect act_circle act :
  is_Some (dispatch (actions strdup fresh act_rect act_circle) act) ↔
  act ∈ action_names.
Proof.
  unfold actions, action_names. cbn [dispatch].
  rewrite !elem_of_cons, elem_of_nil.
  destruct (String.eqb_spec act "CREATE") as [->|H1]; [by split; [left|eexists]|].
  destruct (String.eqb_spec act "REMOVE") as [->|H2];
    [by split; [right; left|eexists]|].
  destruct (String.eqb_spec act "RECT") as [->|H3];
    [by split; [right; right; left|eexists]|].
  destruct (String.eqb_spec act "CIRCLE") as [->|H4];
    [by split; [right; right; right; left|eexists]|].
  split; [by intros [? ?]|]. by intros [?|[?|[?|[?|?]]]].
Qed.

Lemma action_names_words act : act ∈ action_names → word act.
Proof.
  unfold action_names. rewrite !elem_of_cons, elem_of_nil.
  intros [->|[->|[->|[->|[]]]]]; by split.
Qed.

(** X29: a line [<target>: CREATE #rrggbb] followed by whitespace is parsed,
    its colour accepted and [act_create] called; on a context of the
    program, with the mutex free, a target that names no pane and memory
    for the name, the command prints nothing and ends in
    [ui_pane_create]'s call through [ctx->vt.canvas_init], which nothing
    assigned: the line adds no pane. Whitespace around the action may have
    any length. *)
Theorem create_line_calls_unset_backend (strdup : string → option string)
    (fresh : Z → list Z) (act_rect act_circle : act_t) (target w0 w1 w2 : string)
    (c1 c2 c3 c4 c5 c6 : ascii) (d1 d2 d3 d4 d5 d6 : Z) (ctx : ui_ctx) :
  target ≠ EmptyString → colon_free target →
  blank w0 → blank w1 → w1 ≠ EmptyString → blank w2 → w2 ≠ EmptyString →
  hex_value c1 = Some d1 → hex_value c2 = Some d2 → hex_value c3 = Some d3 →
  hex_value c4 = Some d4 → hex_value c5 = Some d5 → hex_value c6 = Some d6 →
  built ctx →
  lock ctx = false →
  target ∉ pane_name <$> panes ctx →
  is_Some (strdup target) →
  handle_line strdup fresh act_rect act_circle
    (target +:+ ":" +:+ w0 +:+ "CREATE" +:+ w1 +:+
       String "#" (String c1 (String c2 (String c3 (String c4 (String c5
         (String c6 EmptyString)))))) +:+ w2) ctx
    = Some ([], Wild).
Proof.
  intros Hne Hcf Hw0 Hw1 Hw1ne Hw2 Hw2ne H1 H2 H3 H4 H5 H6 Hb Hlock Hnin Hdup.
  destruct (built_vt_count ctx Hb) as [Hvt Hcount].
  set (col := String "#" (String c1 (String c2 (String c3 (String c4 (String c5
                (String c6 EmptyString))))))).
  assert (word col) as Hcol.
  { split; [done|]. subst col. cbn [all_chars].
    destruct (hex_value_plain c1 d1 H1) as (-> & _).
    destruct (hex_value_plain c2 d2 H2) as (-> & _).
    destruct (hex_value_plain c3 d3 H3) as (-> & _).
    destruct (hex_value_plain c4 d4 H4) as (-> & _).
    destruct (hex_value_plain c5 d5 H5) as (-> & _).
    destruct (hex_value_plain c6 d6 H6) as (-> & _).
    by vm_compute. }
  unfold handle_line.
  replace (col +:+ w2) with (spaced [(col, w2)])
    by (cbn [spaced]; by rewrite append_empty).
  rewrite (parse_line target w0 "CREATE" w1 [(col, w2)]); try done.
  2: { apply Forall_cons. split; [done|]. apply Forall_nil_2. }
  cbn [args target_name action fmap list_fmap fst].
  unfold run. cbn [actions dispatch String.eqb Ascii.eqb Bool.eqb].
  unfold act_create. subst col.
  rewrite (parse_color_digits c1 c2 c3 c4 c5 c6 d1 d2 d3 d4 d5 d6) by done.
  rewrite create_new_name_unset_vt; try done. unfold MAX_PANES. lia.
Qed.

Lemma create_line_calls_unset_backend_witness :
  handle_line Some zeros act_nothing act_nothing
    ("x" +:+ ":" +:+ " " +:+ "CREATE" +:+ "  " +:+
       String "#" (String "f" (String "f" (String "0" (String "0" (String "0"
         (String "0" EmptyString)))))) +:+ nl) store_root
    = Some ([], Wild).
Proof.
  apply (create_line_calls_unset_backend Some zeros act_nothing act_nothing
           "x" " " "  " nl "f" "f" "0" "0" "0" "0" 15 15 0 0 0 0 store_root);
    try done.
  - apply (built_new (supported_backends BACKEND_DRM) r_ctx_3x3 Some zeros).
    reflexivity.
  - simpl. rewrite list_elem_of_singleton. discriminate.
Defined.

(** X30: a hook of the table is called with [argc] and [argv] that [parse]
    never set exactly when the line ends right after one of the four action
    names, with no whitespace (not even a newline) behind it. A line that
    ends right after any other action calls no hook: it is answered with
    "no such action found" on both streams and leaves the store as it
    was. *)
Theorem handle_line_unset_args (strdup : string → option string) (fresh : Z → list Z)
    (act_rect act_circle : act_t) (line : string) (ctx : ui_ctx) :
  (handle_line strdup fresh act_rect act_circle line ctx = None ↔
   ∃ target w act,
     line = target +:+ ":" +:+ w +:+ act ∧
     target ≠ EmptyString ∧ colon_free target ∧ blank w ∧ act ∈ action_names) ∧
  (∀ target w act,
     line = target +:+ ":" +:+ w +:+ act →
     target ≠ EmptyString → colon_free target → blank w → word act →
     act ∉ action_names →
     handle_line strdup fresh act_rect act_circle line ctx
       = Some ([(Stdout, no_such_action act +:+ nl);
                (Stderr, "cmd: run: " +:+ no_such_action act +:+ nl)],
               Ret () ctx)).
Proof.
  unfold handle_line, run. split; [split|].
  - destruct (parse line) as [c|err] eqn:Hp; [|done].
    destruct (dispatch _ (action c)) as [hook|] eqn:Hd; [|done].
    destruct (args c) as [argv|] eqn:Hargs.
    { by destruct (hook _ _ _) as [out r]. }
    intros _. destruct (parse_cases line) as (_ & _ & Hok).
    destruct (Hok c Hp) as (Hne & Hcf & _ & Hact & _).
    destruct (parse_unset_args line c Hp Hargs) as (w & Hw & ->).
    exists (target_name c), w, (action c). repeat split; try done.
    apply (dispatch_actions strdup fresh act_rect act_circle). by rewrite Hd.
  - intros (target & w & act & -> & Hne & Hcf & Hw & Hact).
    rewrite parse_bare_action by (try done; by apply action_names_words).
    cbn [target_name action args].
    apply (dispatch_actions strdup fresh act_rect act_circle) in Hact as [hook ->].
    done.
  - intros target w act -> Hne Hcf Hw Hact Hnin.
    rewrite parse_bare_action by done. cbn [target_name action args].
    destruct (dispatch _ act) as [hook|] eqn:Hd; [|done].
    destruct Hnin. apply (dispatch_actions strdup fresh act_rect act_circle).
    by rewrite Hd.
Qed.

End Cmd.
